(** * Pitch-contour pipeline of detech-sound: a shallow embedding

    The two scripts [main.py] (10 time marks) and [main2.py] (20 time marks,
    pre-scan gap filling, time reset at the 11th mark) are embedded as Rocq
    functions.  Conventions of the embedding:

    - Hz values and times are Python floats in the source.  The first part
      of the development reads them as exact rationals ([Q]): rounding error
      of binary floating point is not modelled there, and [round(x, n)] is
      round-half-to-even on the exact value, which is what Python does on the
      exact value of its float argument.  It carries the properties that do
      not depend on how a result is rounded.  The second part (module [Fl])
      embeds the same functions over an arbitrary arithmetic, each operation
      standing for the one the source applies, and carries the properties
      that say which value is computed.
    - A waveform is a list of samples of an abstract type; lengths and sample
      indices are [nat], the sample rate is a [positive].
    - [librosa.yin] is a parameter.  A call either raises or returns a frame
      track whose entries are a frequency or NaN.
    - Python exceptions are explicit: every function of the scripts that can
      be interrupted by one returns an [outcome]. *)

From Stdlib Require Import ZArith QArith Qround Qabs Lqa Lia String Ascii Bool Sorted.
From stdpp Require Import base list.

Local Open Scope Q_scope.

(** ** Exceptions *)

Inductive exn : Type :=
| PrimitiveError (msg : string)   (* whatever the estimation call raises *)
| IndexError.                     (* list index out of range *)

Inductive outcome (A : Type) : Type :=
| Returns (a : A)
| Raises (e : exn).

Arguments Returns {A} a.
Arguments Raises {A} e.

Definition bind {A B : Type} (c : outcome A) (k : A -> outcome B) : outcome B :=
  match c with
  | Returns a => k a
  | Raises e => Raises e
  end.

(** [try: c except Exception as e: h e] *)
Definition try_except {A : Type} (c : outcome A) (h : exn -> outcome A) : outcome A :=
  match c with
  | Returns a => Returns a
  | Raises e => h e
  end.

Declare Scope outcome_scope.
Delimit Scope outcome_scope with outcome.
Notation "x <- c ;; k" := (bind c (fun x => k))
  (at level 100, c at next level, right associativity) : outcome_scope.
Local Open Scope outcome_scope.

(** [for i in range(n): s = body i s], the loop state threaded explicitly. *)
Fixpoint for_each {S : Type} (idx : list nat) (s : S) (body : nat -> S -> outcome S)
  : outcome S :=
  match idx with
  | [] => Returns s
  | i :: rest => s' <- body i s ;; for_each rest s' body
  end.

Definition for_range {S : Type} (n : nat) (s : S) (body : nat -> S -> outcome S)
  : outcome S :=
  for_each (seq 0 n) s body.

(** [l[i]] and [l[i] = v] for [0 <= i]; both raise out of range. *)
Definition getitem {A : Type} (l : list A) (i : nat) : outcome A :=
  match l !! i with
  | Some x => Returns x
  | None => Raises IndexError
  end.

Definition setitem {A : Type} (l : list A) (i : nat) (v : A) : outcome (list A) :=
  if (i <? length l)%nat then Returns (<[i := v]> l) else Raises IndexError.

(** [l[start:end]] for [0 <= start], [0 <= end]: clamped, never raises. *)
Definition slice {A : Type} (l : list A) (start stop : nat) : list A :=
  take (stop - start)%nat (drop start l).

(** [l[-k:]] *)
Definition last_n {A : Type} (k : nat) (l : list A) : list A :=
  drop (length l - k)%nat l.

(** ** Numerics *)

Definition Q_of_nat (n : nat) : Q := inject_Z (Z.of_nat n).

(** [round(x)] to an integer: nearest, ties to even. *)
Definition round_half_even (x : Q) : Z :=
  let f := Qfloor x in
  match Qcompare (x - inject_Z f) (1 # 2) with
  | Lt => f
  | Gt => (f + 1)%Z
  | Eq => if Z.even f then f else (f + 1)%Z
  end.

(** [round(x, ndigits)] *)
Definition py_round (x : Q) (ndigits : nat) : Q :=
  let p := Pos.pow 10 (Pos.of_nat ndigits) in
  match ndigits with
  | O => inject_Z (round_half_even x)
  | _ => Qmake (round_half_even (x * inject_Z (Zpos p))) p
  end.

(** [np.mean(l)] *)
Definition np_mean (l : list Q) : Q :=
  foldr Qplus 0 l / Q_of_nat (length l).

Fixpoint insert_sorted (x : Q) (l : list Q) : list Q :=
  match l with
  | [] => [x]
  | y :: rest => if Qle_bool x y then x :: l else y :: insert_sorted x rest
  end.

Definition sort_ascending (l : list Q) : list Q := foldr insert_sorted [] l.

(** [np.median(l)] for a non-empty [l]: the middle element of the sorted
    values, or the mean of the two middle ones.  (On an empty array numpy
    yields NaN; the scripts only call it on non-empty ones.) *)
Definition np_median (l : list Q) : Q :=
  let s := sort_ascending l in
  let n := length s in
  if Nat.even n
  then (nth (n / 2 - 1)%nat s 0 + nth (n / 2)%nat s 0) / 2
  else nth (n / 2)%nat s 0.

(** [min(best :: rest, key=key)]: the first element with the least key (the
    running minimum is replaced only by a strictly smaller key). *)
Fixpoint min_by_key {A : Type} (key : A -> Q) (best : A) (rest : list A) : A :=
  match rest with
  | [] => best
  | x :: rest' =>
      if Qlt_le_dec (key x) (key best)
      then min_by_key key x rest'
      else min_by_key key best rest'
  end.

(** ** Configuration constants shared by both scripts *)

Definition MAX_VALID_HZ : Q := 350.
Definition SUB_WINDOWS : nat := 5.

(** ** Segmentation

    Every loop that cuts a signal into [count] parts computes the bounds of
    part [i] by the same two assignments:
<<
    start = i * segment_len
    end = (i + 1) * segment_len if i < COUNT - 1 else total_len
>>
    with [segment_len = total_len // COUNT]. *)

Definition span (count total_len i : nat) : nat * nat :=
  let segment_len := (total_len / count)%nat in
  let start := (i * segment_len)%nat in
  let stop := if (i <? count - 1)%nat then ((i + 1) * segment_len)%nat else total_len in
  (start, stop).

Definition spans (count total_len : nat) : list (nat * nat) :=
  span count total_len <$> seq 0 count.

(** ** The estimator (identical in [main.py] and [main2.py]) *)

Inductive frame : Type :=
| NaN
| Freq (hz : Q).

(** [f0[~np.isnan(f0)]] *)
Fixpoint drop_nan (f0 : list frame) : list Q :=
  match f0 with
  | [] => []
  | NaN :: rest => drop_nan rest
  | Freq hz :: rest => hz :: drop_nan rest
  end.

Section Estimator.

Context {Sample : Type}.

(** [librosa.yin(segment, fmin=50, fmax=500, sr=sr)] *)
Variable yin : list Sample -> positive -> outcome (list frame).

Definition detect_pitch (segment : list Sample) (sr : positive) : outcome (option Q) :=
  try_except
    (f0 <- yin segment sr ;;
     let f0 := drop_nan f0 in
     if (length f0 =? 0)%nat then Returns None
     else Returns (Some (np_median f0)))
    (fun e => Returns None).

(** One iteration of the sub-window loop; the loop state is
    [valid_hz_values]. *)
Definition sub_window_step (segment : list Sample) (sr : positive)
    (i : nat) (valid_hz_values : list Q) : outcome (list Q) :=
  let '(start, stop) := span SUB_WINDOWS (length segment) i in
  let sub_segment := slice segment start stop in
  sub_hz <- detect_pitch sub_segment sr ;;
  match sub_hz with
  | Some h =>
      if Qlt_le_dec h MAX_VALID_HZ
      then Returns (valid_hz_values ++ [h])
      else Returns valid_hz_values
  | None => Returns valid_hz_values
  end.

Definition robust_pitch_detection (segment : list Sample) (sr : positive) : outcome Q :=
  hz <- detect_pitch segment sr ;;
  let fallback :=
    valid_hz_values <- for_range SUB_WINDOWS [] (sub_window_step segment sr) ;;
    if (0 <? length valid_hz_values)%nat
    then Returns (np_median valid_hz_values)
    else Returns MAX_VALID_HZ in
  match hz with
  | Some h => if Qlt_le_dec h MAX_VALID_HZ then Returns h else fallback
  | None => fallback
  end.

End Estimator.

(** ** Smoothing (identical in both scripts) *)

(** The slice averaged at position [i]. *)
Definition window (hz_list : list Q) (i : nat) : list Q :=
  if (i =? 0)%nat then slice hz_list 0 2
  else if (i =? length hz_list - 1)%nat then last_n 2 hz_list
  else slice hz_list (i - 1) (i + 2).

Definition smooth_at (hz_list : list Q) (i : nat) : Q :=
  let value := np_mean (window hz_list i) in
  py_round value 2.

Definition smooth_hz_values (hz_list : list Q) : list Q :=
  smooth_at hz_list <$> seq 0 (length hz_list).

(** ** Output records *)

Record MarkResult : Type := {
  sounding : string;
  time_mark : nat;
  relative_time_sec : Q;
  hz : Q
}.

Definition Q_of_pos (p : positive) : Q := inject_Z (Zpos p).

(** ** [main.py]: ten marks, no gap filling, no reset

    [process_audio_file] is embedded from the point where the waveform has
    been loaded and trimmed: its arguments are the base name of the file, the
    trimmed waveform [y] and the sample rate [sr]. *)

Module Main.

Definition TIME_MARKS : nat := 10.

Section Pipeline.

Context {Sample : Type}.
Variable yin : list Sample -> positive -> outcome (list frame).

(** Body of the first loop; the state is [(hz_values, segment_boundaries)]. *)
Definition estimate_step (y : list Sample) (sr : positive) (i : nat)
    (st : list Q * list (nat * nat)) : outcome (list Q * list (nat * nat)) :=
  let '(hz_values, segment_boundaries) := st in
  let '(start_sample, end_sample) := span TIME_MARKS (length y) i in
  let segment := slice y start_sample end_sample in
  hz <- robust_pitch_detection yin segment sr ;;
  Returns (hz_values ++ [hz], segment_boundaries ++ [(start_sample, end_sample)]).

(** Body of the second loop; the state is [results]. *)
Definition emit_step (name : string) (sr : positive) (hz_values : list Q)
    (segment_boundaries : list (nat * nat)) (i : nat)
    (results : list MarkResult) : outcome (list MarkResult) :=
  bounds <- getitem segment_boundaries i ;;
  let '(start_sample, end_sample) := bounds in
  let midpoint_time := (Q_of_nat (start_sample + end_sample) / 2) / Q_of_pos sr in
  h <- getitem hz_values i ;;
  Returns (results ++ [ {| sounding := name;
                           time_mark := (i + 1)%nat;
                           relative_time_sec := py_round midpoint_time 3;
                           hz := h |} ]).

Definition process_audio_file (name : string) (y : list Sample) (sr : positive)
  : outcome (list MarkResult) :=
  st <- for_range TIME_MARKS ([], []) (estimate_step y sr) ;;
  let '(hz_values, segment_boundaries) := st in
  let hz_values := smooth_hz_values hz_values in
  for_range TIME_MARKS [] (emit_step name sr hz_values segment_boundaries).

End Pipeline.

End Main.

(** ** [main2.py]: twenty marks, pre-scan gap filling, reset at mark 10 *)

Module Main2.

Definition MIN_VALID_HZ : Q := 75.
Definition TIME_MARKS : nat := 20.
Definition PRE_SCAN_MARKS : nat := 300.

(** An entry [{"time": ..., "hz": ...}] of [prescan_data]. *)
Record ReferencePoint : Type := {
  rp_time : Q;
  rp_hz : option Q
}.

(** The comprehension of [find_nearest_valid_hz]: the points that pass
    [p["hz"] is not None and p["hz"] >= MIN_VALID_HZ], each with its time
    and its (now concrete) frequency, in the order of [prescan_data]. *)
Fixpoint valid_points (prescan_data : list ReferencePoint) : list (Q * Q) :=
  match prescan_data with
  | [] => []
  | p :: rest =>
      match rp_hz p with
      | Some h =>
          if Qle_bool MIN_VALID_HZ h
          then (rp_time p, h) :: valid_points rest
          else valid_points rest
      | None => valid_points rest
      end
  end.

Definition find_nearest_valid_hz (target_time : Q) (prescan_data : list ReferencePoint) : Q :=
  match valid_points prescan_data with
  | [] => MIN_VALID_HZ
  | p :: rest =>
      let nearest := min_by_key (fun p => Qabs (fst p - target_time)) p rest in
      snd nearest
  end.

(** State of the second loop of [process_audio_file]. *)
Record loop_state : Type := {
  hz_values : list Q;
  results : list MarkResult;
  reset_time : Q;
  prev_end_time : Q
}.

Section Pipeline.

Context {Sample : Type}.
Variable yin : list Sample -> positive -> outcome (list frame).

Definition prescan_step (y : list Sample) (sr : positive) (i : nat)
    (prescan_data : list ReferencePoint) : outcome (list ReferencePoint) :=
  let '(start, stop) := span PRE_SCAN_MARKS (length y) i in
  let segment := slice y start stop in
  hz <- detect_pitch yin segment sr ;;
  let midpoint_time := (Q_of_nat (start + stop) / 2) / Q_of_pos sr in
  Returns (prescan_data ++ [ {| rp_time := midpoint_time; rp_hz := hz |} ]).

Definition prescan_300_marks (y : list Sample) (sr : positive)
  : outcome (list ReferencePoint) :=
  for_range PRE_SCAN_MARKS [] (prescan_step y sr).

Definition estimate_step (y : list Sample) (sr : positive) (i : nat)
    (st : list Q * list (nat * nat)) : outcome (list Q * list (nat * nat)) :=
  let '(hz_values, segment_boundaries) := st in
  let '(start, stop) := span TIME_MARKS (length y) i in
  let segment := slice y start stop in
  hz <- robust_pitch_detection yin segment sr ;;
  Returns (hz_values ++ [hz], segment_boundaries ++ [(start, stop)]).

Definition mark_step (name : string) (sr : positive)
    (prescan_data : list ReferencePoint) (segment_boundaries : list (nat * nat))
    (i : nat) (st : loop_state) : outcome loop_state :=
  bounds <- getitem segment_boundaries i ;;
  let '(start, stop) := bounds in
  let start_time := Q_of_nat start / Q_of_pos sr in
  let end_time := Q_of_nat stop / Q_of_pos sr in
  let midpoint_time := (start_time + end_time) / 2 in
  h <- getitem (hz_values st) i ;;
  hz_values' <-
    (if Qlt_le_dec h MIN_VALID_HZ
     then
       let replacement_hz := find_nearest_valid_hz midpoint_time prescan_data in
       setitem (hz_values st) i (py_round replacement_hz 2)
     else Returns (hz_values st)) ;;
  let reset_time' := if (i =? 10)%nat then prev_end_time st else reset_time st in
  let '(relative_time, excel_mark) :=
    if (i <? 10)%nat
    then (midpoint_time, (i + 1)%nat)
    else (midpoint_time - reset_time', ((i - 10) + 1)%nat) in
  h' <- getitem hz_values' i ;;
  Returns {| hz_values := hz_values';
             results := results st ++
               [ {| sounding := name;
                    time_mark := excel_mark;
                    relative_time_sec := py_round relative_time 3;
                    hz := h' |} ];
             reset_time := reset_time';
             prev_end_time := end_time |}.

Definition process_audio_file (name : string) (y : list Sample) (sr : positive)
  : outcome (list MarkResult) :=
  prescan_data <- prescan_300_marks y sr ;;
  st <- for_range TIME_MARKS ([], []) (estimate_step y sr) ;;
  let '(hz_values0, segment_boundaries) := st in
  let hz_values0 := smooth_hz_values hz_values0 in
  final <- for_range TIME_MARKS
             {| hz_values := hz_values0; results := [];
                reset_time := 0; prev_end_time := 0 |}
             (mark_step name sr prescan_data segment_boundaries) ;;
  Returns (results final).

End Pipeline.

End Main2.

(** * Quantities used in the statements

    Functions of the primitive and of the waveform in which the properties
    below are stated. *)

Definition within (lo hi x : Q) : Prop := lo <= x /\ x <= hi.

(** "Concrete and strictly below [MAX_VALID_HZ]". *)
Definition accepted (o : option Q) : option Q :=
  match o with
  | Some h => if Qlt_le_dec h MAX_VALID_HZ then Some h else None
  | None => None
  end.

Section Derived.

Context {Sample : Type}.
Variable yin : list Sample -> positive -> outcome (list frame).

(** The primitive-level result for a segment: the median of the frames that
    are not NaN, undetermined when the call raises or leaves no frame. *)
Definition detected (segment : list Sample) (sr : positive) : option Q :=
  match yin segment sr with
  | Returns f0 =>
      match drop_nan f0 with
      | [] => None
      | _ :: _ => Some (np_median (drop_nan f0))
      end
  | Raises _ => None
  end.

(** The sub-window results kept by the fallback, following the wording of
    the specification: the segment is tiled by [spans] into [SUB_WINDOWS]
    parts and the accepted primitive-level results are collected in order. *)
Definition collected (segment : list Sample) (sr : positive) : list Q :=
  omap (fun b : nat * nat => accepted (detected (slice segment (fst b) (snd b)) sr))
       (spans SUB_WINDOWS (length segment)).

(** The primitive never yields a negative frequency. *)
Definition primitive_nonneg : Prop :=
  forall segment sr f0, yin segment sr = Returns f0 -> Forall (Qle 0) (drop_nan f0).

(** The primitive never yields a frequency above [B]. *)
Definition primitive_below (B : Z) : Prop :=
  forall segment sr f0,
    yin segment sr = Returns f0 -> Forall (fun h => h <= inject_Z B) (drop_nan f0).

(** The primitive fails on every call: it raises or leaves no frame. *)
Definition primitive_fails : Prop :=
  forall segment sr, detected segment sr = None.

(** The three cases of the estimator as a function of the primitive-level
    results. *)
Definition robust_value (segment : list Sample) (sr : positive) : Q :=
  match accepted (detected segment sr) with
  | Some h => h
  | None =>
      match collected segment sr with
      | [] => MAX_VALID_HZ
      | _ :: _ => np_median (collected segment sr)
      end
  end.

(** The estimates of the [count] coarse segments of [y], before smoothing. *)
Definition raw_hz_values (count : nat) (y : list Sample) (sr : positive) : list Q :=
  (fun b : nat * nat => robust_value (slice y (fst b) (snd b)) sr)
    <$> spans count (length y).

(** The reference points of a waveform: one per span of the fine grid, with
    the midpoint time of the span and the primitive-level result. *)
Definition prescan_points (y : list Sample) (sr : positive) : list Main2.ReferencePoint :=
  (fun b : nat * nat =>
     {| Main2.rp_time := (Q_of_nat (fst b + snd b) / 2) / Q_of_pos sr;
        Main2.rp_hz := detected (slice y (fst b) (snd b)) sr |})
    <$> spans Main2.PRE_SCAN_MARKS (length y).

(** The smoothed coarse estimates of a waveform. *)
Definition smoothed_hz_values (y : list Sample) (sr : positive) : list Q :=
  smooth_hz_values (raw_hz_values Main2.TIME_MARKS y sr).

End Derived.

(** Start, end and midpoint of a span, in seconds. *)
Definition start_time (sr : positive) (b : nat * nat) : Q := Q_of_nat (fst b) / Q_of_pos sr.
Definition end_time (sr : positive) (b : nat * nat) : Q := Q_of_nat (snd b) / Q_of_pos sr.
Definition midpoint_time (sr : positive) (b : nat * nat) : Q :=
  (start_time sr b + end_time sr b) / 2.

(** The value emitted for a mark whose smoothed frequency is [s]. *)
Definition patched (prescan_data : list Main2.ReferencePoint) (sr : positive)
    (b : nat * nat) (s : Q) : Q :=
  if Qlt_le_dec s Main2.MIN_VALID_HZ
  then py_round (Main2.find_nearest_valid_hz (midpoint_time sr b) prescan_data) 2
  else s.

(** The record emitted for mark [i] with bounds [b], smoothed frequency [s],
    the reset anchor being [anchor]. *)
Definition mark_result (name : string) (prescan_data : list Main2.ReferencePoint)
    (sr : positive) (anchor : Q) (i : nat) (b : nat * nat) (s : Q) : MarkResult :=
  {| sounding := name;
     time_mark := if (i <? 10)%nat then (i + 1)%nat else (i - 10 + 1)%nat;
     relative_time_sec :=
       py_round (if (i <? 10)%nat then midpoint_time sr b
                 else midpoint_time sr b - anchor) 3;
     hz := patched prescan_data sr b s |}.

(** The reset anchor: the end time of the segment of mark 9. *)
Definition reset_anchor (sr : positive) (total_len : nat) : Q :=
  end_time sr (span Main2.TIME_MARKS total_len 9).

(** Invariant of the second loop of [main2.process_audio_file] before
    iteration [i]: the marks not yet visited still hold their smoothed
    values, the marks already visited have been emitted. *)
Definition mark_loop_inv (name : string) (prescan_data : list Main2.ReferencePoint)
    (sr : positive) (total_len : nat) (smoothed : list Q)
    (i : nat) (st : Main2.loop_state) : Prop :=
  length (Main2.hz_values st) = length smoothed /\
  (forall j, (i <= j)%nat -> Main2.hz_values st !! j = smoothed !! j) /\
  length (Main2.results st) = i /\
  (forall j s, (j < i)%nat -> smoothed !! j = Some s ->
     Main2.results st !! j =
     Some (mark_result name prescan_data sr (reset_anchor sr total_len) j
             (span Main2.TIME_MARKS total_len j) s)) /\
  Main2.prev_end_time st =
    match i with
    | O => 0
    | S k => end_time sr (span Main2.TIME_MARKS total_len k)
    end /\
  ((10 < i)%nat -> Main2.reset_time st = reset_anchor sr total_len).

(** The record emitted by [main.py] for mark [i] with bounds [b] and smoothed
    frequency [h]. *)
Definition main_result (name : string) (sr : positive) (i : nat) (b : nat * nat) (h : Q)
  : MarkResult :=
  {| sounding := name;
     time_mark := (i + 1)%nat;
     relative_time_sec := py_round ((Q_of_nat (fst b + snd b) / 2) / Q_of_pos sr) 3;
     hz := h |}.

(** ** The batch drivers

    [process_audio_file(file_path)] as a whole, and [main].  The file system
    and the audio library are parameters: [load] is [librosa.load(path,
    sr=None)] and [remove_silence] is the function of that name (a call to
    [librosa.effects.trim]); either may raise.  A file is named by its entry
    in the data folder, which is also what [os.path.basename] gives back for
    the joined path.  File names are strings of bytes and [lower] maps the
    ASCII capitals, which is what [str.lower] does to the four characters the
    suffix test looks at. *)

Definition lower_char (c : ascii) : ascii :=
  let n := nat_of_ascii c in
  if ((65 <=? n) && (n <=? 90))%nat then ascii_of_nat (n + 32) else c.

(** [s.lower()] *)
Fixpoint lower (s : string) : string :=
  match s with
  | EmptyString => EmptyString
  | String c rest => String (lower_char c) (lower rest)
  end.

(** [s.endswith(suffix)] *)
Fixpoint endswith (s suffix : string) : bool :=
  if String.eqb s suffix then true
  else
    match s with
    | EmptyString => false
    | String _ rest => endswith rest suffix
    end.

(** [f.lower().endswith(".wav")] *)
Definition is_wav (f : string) : bool := endswith (lower f) ".wav".

(** [for x in l: s = body x s] *)
Fixpoint for_in {A S : Type} (l : list A) (s : S) (body : A -> S -> outcome S)
  : outcome S :=
  match l with
  | [] => Returns s
  | x :: rest => s' <- body x s ;; for_in rest s' body
  end.

(** The body shared by the two [main] functions, which differ in the folder
    they read, in their log texts and in the [process_audio_file] they call.
    The result is [None] when the data folder is missing (an error is logged
    and nothing is written) and otherwise the rows handed to
    [pd.DataFrame(all_results).to_excel]. *)
Definition run_main (process_audio_file : string -> outcome (list MarkResult))
    (data_folder_exists : bool) (listing : list string)
  : outcome (option (list MarkResult)) :=
  if negb data_folder_exists then Returns None
  else
    let files := List.filter is_wav listing in
    all_results <-
      for_in files []
        (fun file_name all_results =>
           results <- process_audio_file file_name ;;
           Returns (all_results ++ results)) ;;
    Returns (Some all_results).

Section Batch.

Context {Sample : Type}.
Variable yin : list Sample -> positive -> outcome (list frame).
Variable load : string -> outcome (list Sample * positive).
Variable remove_silence : list Sample -> outcome (list Sample).

(** [main.process_audio_file(file_path)] *)
Definition main_process_file (file_name : string) : outcome (list MarkResult) :=
  loaded <- load file_name ;;
  y <- remove_silence (fst loaded) ;;
  Main.process_audio_file yin file_name y (snd loaded).

(** [main2.process_audio_file(file_path)] *)
Definition main2_process_file (file_name : string) : outcome (list MarkResult) :=
  loaded <- load file_name ;;
  y <- remove_silence (fst loaded) ;;
  Main2.process_audio_file yin file_name y (snd loaded).

(** [main.main()] and [main2.main()] *)
Definition main_main : bool -> list string -> outcome (option (list MarkResult)) :=
  run_main main_process_file.

Definition main2_main : bool -> list string -> outcome (option (list MarkResult)) :=
  run_main main2_process_file.

End Batch.

(** ** Concrete inputs

    A primitive that raises on an empty segment, tracks 400 Hz on segments
    shorter than ten samples and 60 Hz on longer ones (both within the band
    50..500 Hz in which [librosa.yin] is called), a waveform of 600 samples,
    a primitive that always raises, and a short list of reference points. *)

Definition yin_demo (segment : list unit) (sr : positive) : outcome (list frame) :=
  match length segment with
  | O => Raises (PrimitiveError "empty segment")
  | S _ =>
      if (length segment <? 10)%nat
      then Returns [Freq 400; NaN]
      else Returns [NaN; Freq 60]
  end.

Definition wave_demo : list unit := replicate 600 tt.

Definition yin_silent (segment : list unit) (sr : positive) : outcome (list frame) :=
  Raises (PrimitiveError "no signal").

(** A data folder: every file decodes to [wave_demo] except [bad.wav], and
    trimming leaves the signal as it is. *)
Definition load_demo (f : string) : outcome (list unit * positive) :=
  if String.eqb f "bad.wav" then Raises (PrimitiveError "cannot decode")
  else Returns (wave_demo, 16000%positive).

Definition trim_demo (y : list unit) : outcome (list unit) := Returns y.

Definition listing_demo : list string :=
  ["a.wav"; "notes.txt"; "B.WAV"; "bad.wav"; "c.wav"]%string.

Definition points_demo : list Main2.ReferencePoint :=
  [ {| Main2.rp_time := 1; Main2.rp_hz := Some 100 |};
    {| Main2.rp_time := 2; Main2.rp_hz := Some 50 |};
    {| Main2.rp_time := 3; Main2.rp_hz := Some 200 |};
    {| Main2.rp_time := 5; Main2.rp_hz := None |} ].

(** * Properties *)

(** ** Loops *)

Lemma bind_returns {A B : Type} (c : outcome A) (k : A -> outcome B) (a : A) :
  c = Returns a -> bind c k = k a.
Proof. intros ->. reflexivity. Qed.

(** A loop whose body never raises under an invariant runs to completion and
    the invariant holds at its end. *)
Lemma for_each_invariant {S : Type} (Inv : nat -> S -> Prop)
    (body : nat -> S -> outcome S) (n : nat) :
  forall (start : nat) (s : S),
    Inv start s ->
    (forall i st, (start <= i < start + n)%nat -> Inv i st ->
       exists st', body i st = Returns st' /\ Inv (Datatypes.S i) st') ->
    exists s', for_each (seq start n) s body = Returns s' /\ Inv (start + n)%nat s'.
Proof.
  induction n as [|n IH]; intros start s H0 Hstep.
  - exists s. rewrite Nat.add_0_r. split; [reflexivity | assumption].
  - destruct (Hstep start s ltac:(lia) H0) as (s1 & Hb & H1).
    destruct (IH (Datatypes.S start) s1 H1) as (s' & Hrun & Hinv).
    { intros i st Hi. apply Hstep. lia. }
    exists s'. split.
    + simpl. rewrite Hb. simpl. exact Hrun.
    + replace (start + Datatypes.S n)%nat with (Datatypes.S start + n)%nat by lia.
      exact Hinv.
Qed.

Lemma for_range_invariant {S : Type} (Inv : nat -> S -> Prop)
    (body : nat -> S -> outcome S) (n : nat) (s : S) :
  Inv 0%nat s ->
  (forall i st, (i < n)%nat -> Inv i st ->
     exists st', body i st = Returns st' /\ Inv (Datatypes.S i) st') ->
  exists s', for_range n s body = Returns s' /\ Inv n s'.
Proof.
  intros H0 Hstep. unfold for_range.
  destruct (for_each_invariant Inv body n 0%nat s H0) as (s' & Hrun & Hinv).
  - intros i st Hi. apply Hstep. lia.
  - exists s'. split; assumption.
Qed.

(** ** Rounding *)

(** Linear arithmetic over [Q] with embedded integers taken as atoms. *)
Ltac q_linear :=
  repeat match goal with
    | |- context [inject_Z ?z] =>
        let q := fresh "q" in set (q := inject_Z z) in *; clearbody q
    | H : context [inject_Z ?z] |- _ =>
        let q := fresh "q" in set (q := inject_Z z) in *; clearbody q
    end;
  lra.

Lemma round_half_even_floor (x : Q) :
  round_half_even x = Qfloor x \/ round_half_even x = (Qfloor x + 1)%Z.
Proof.
  unfold round_half_even.
  destruct (Qcompare _ _); [destruct (Z.even _) | |]; auto.
Qed.

Lemma round_half_even_proper (x y : Q) :
  x == y -> round_half_even x = round_half_even y.
Proof.
  intros E. unfold round_half_even.
  rewrite (Qfloor_comp x y E).
  assert (Ec : Qcompare (x - inject_Z (Qfloor y)) (1 # 2)
             = Qcompare (y - inject_Z (Qfloor y)) (1 # 2)).
  { apply Qcompare_comp; [rewrite E|]; reflexivity. }
  rewrite Ec. reflexivity.
Qed.

Lemma round_half_even_Z (z : Z) : round_half_even (inject_Z z) = z.
Proof.
  unfold round_half_even. rewrite Qfloor_Z.
  assert (E : Qcompare (inject_Z z - inject_Z z) (1 # 2) = Lt).
  { apply (proj1 (Qlt_alt _ _)). q_linear. }
  rewrite E. reflexivity.
Qed.

Lemma round_half_even_lower (x : Q) (a : Z) :
  inject_Z a <= x -> (a <= round_half_even x)%Z.
Proof.
  intros H. apply Qfloor_resp_le in H. rewrite Qfloor_Z in H.
  destruct (round_half_even_floor x) as [-> | ->]; lia.
Qed.

Lemma round_half_even_upper (x : Q) (b : Z) :
  x <= inject_Z b -> (round_half_even x <= b)%Z.
Proof.
  intros H. pose proof (Qfloor_resp_le _ _ H) as Hf. rewrite Qfloor_Z in Hf.
  destruct (Z.eq_dec (Qfloor x) b) as [Eb | Nb].
  - unfold round_half_even. rewrite Eb.
    assert (E : Qcompare (x - inject_Z b) (1 # 2) = Lt) by (apply (proj1 (Qlt_alt _ _)); q_linear).
    rewrite E. lia.
  - destruct (round_half_even_floor x) as [-> | ->]; lia.
Qed.

Lemma py_round_2_unfold (x : Q) :
  py_round x 2 = Qmake (round_half_even (x * 100)) 100.
Proof. reflexivity. Qed.

Lemma py_round_3_unfold (x : Q) :
  py_round x 3 = Qmake (round_half_even (x * 1000)) 1000.
Proof. reflexivity. Qed.

Lemma py_round_proper (x y : Q) (n : nat) : x == y -> py_round x n = py_round y n.
Proof.
  intros E. unfold py_round. destruct n.
  - rewrite (round_half_even_proper x y E). reflexivity.
  - f_equal. apply round_half_even_proper. rewrite E. reflexivity.
Qed.

Lemma py_round_2_lower (x : Q) (a : Z) :
  inject_Z a <= x -> inject_Z a <= py_round x 2.
Proof.
  intros H. rewrite py_round_2_unfold.
  assert (Ha : (a * 100 <= round_half_even (x * 100))%Z).
  { apply round_half_even_lower. rewrite inject_Z_mult. change (inject_Z 100) with 100. q_linear. }
  unfold Qle. simpl. lia.
Qed.

Lemma py_round_2_upper (x : Q) (b : Z) :
  x <= inject_Z b -> py_round x 2 <= inject_Z b.
Proof.
  intros H. rewrite py_round_2_unfold.
  assert (Hb : (round_half_even (x * 100) <= b * 100)%Z).
  { apply round_half_even_upper. rewrite inject_Z_mult. change (inject_Z 100) with 100. q_linear. }
  unfold Qle. simpl. lia.
Qed.

(** A value that already has at most two decimals is its own rounding. *)
Lemma py_round_2_grid (z : Z) : py_round (Qmake z 100) 2 = Qmake z 100.
Proof.
  rewrite py_round_2_unfold. f_equal.
  rewrite <- (round_half_even_Z z) at 2. apply round_half_even_proper.
  unfold Qeq. simpl. lia.
Qed.

(** ** Mean and median *)

Lemma Q_of_nat_S (n : nat) : Q_of_nat (S n) == Q_of_nat n + 1.
Proof.
  unfold Q_of_nat. rewrite Nat2Z.inj_succ, <- Z.add_1_r, inject_Z_plus. reflexivity.
Qed.

Lemma Q_of_nat_pos (n : nat) : (0 < n)%nat -> 0 < Q_of_nat n.
Proof.
  intros H. unfold Q_of_nat. change 0 with (inject_Z 0).
  rewrite <- Zlt_Qlt. lia.
Qed.

Lemma Q_of_pos_pos (p : positive) : 0 < Q_of_pos p.
Proof. unfold Q_of_pos. change 0 with (inject_Z 0). rewrite <- Zlt_Qlt. lia. Qed.

Lemma sum_within (lo hi : Q) (l : list Q) :
  Forall (within lo hi) l ->
  Q_of_nat (length l) * lo <= foldr Qplus 0 l /\
  foldr Qplus 0 l <= Q_of_nat (length l) * hi.
Proof.
  induction 1 as [|x l [Hlo Hhi] _ [IHlo IHhi]]; simpl foldr; simpl length.
  - change (Q_of_nat 0) with 0. lra.
  - rewrite Q_of_nat_S. generalize dependent (Q_of_nat (length l)). intros n ? ?.
    split; lra.
Qed.

Lemma np_mean_within (lo hi : Q) (l : list Q) :
  l <> [] -> Forall (within lo hi) l -> within lo hi (np_mean l).
Proof.
  intros Hne Hall. destruct (sum_within lo hi l Hall) as [Hlo Hhi].
  assert (Hn : 0 < Q_of_nat (length l)).
  { apply Q_of_nat_pos. destruct l; [congruence | simpl; lia]. }
  unfold np_mean. split.
  - apply Qle_shift_div_l; [assumption | lra].
  - apply Qle_shift_div_r; [assumption | lra].
Qed.

Lemma insert_sorted_perm (x : Q) (l : list Q) : insert_sorted x l ≡ₚ x :: l.
Proof.
  induction l as [|y l IH]; simpl; [reflexivity|].
  destruct (Qle_bool x y); [reflexivity|].
  rewrite IH. apply Permutation_swap.
Qed.

Lemma sort_ascending_perm (l : list Q) : sort_ascending l ≡ₚ l.
Proof.
  induction l as [|x l IH]; simpl; [reflexivity|].
  rewrite insert_sorted_perm. rewrite IH. reflexivity.
Qed.

Lemma insert_sorted_sorted (x : Q) (l : list Q) :
  Sorted Qle l -> Sorted Qle (insert_sorted x l).
Proof.
  induction 1 as [|y l Hs IH Hhd]; simpl.
  - repeat constructor.
  - destruct (Qle_bool x y) eqn:E.
    + apply Qle_bool_iff in E. repeat constructor; assumption.
    + assert (Hyx : y <= x).
      { destruct (Qlt_le_dec y x) as [Hlt | Hle]; [lra|].
        apply Qle_bool_iff in Hle. congruence. }
      constructor; [assumption|].
      destruct l as [|z l]; simpl in *; [repeat constructor; assumption|].
      destruct (Qle_bool x z); constructor; [assumption|].
      inversion Hhd; assumption.
Qed.

Lemma sort_ascending_sorted (l : list Q) : Sorted Qle (sort_ascending l).
Proof.
  induction l as [|x l IH]; simpl; [constructor|].
  apply insert_sorted_sorted, IH.
Qed.

Lemma sort_ascending_length (l : list Q) : length (sort_ascending l) = length l.
Proof. apply Permutation_length, sort_ascending_perm. Qed.

Lemma sort_ascending_Forall (P : Q -> Prop) (l : list Q) :
  Forall P l -> Forall P (sort_ascending l).
Proof. intros H. rewrite sort_ascending_perm. exact H. Qed.

Lemma Forall_nth_default (P : Q -> Prop) (l : list Q) (i : nat) :
  Forall P l -> (i < length l)%nat -> P (nth i l 0).
Proof.
  intros H. revert i. induction H as [|x l Hx _ IH]; intros [|i] Hi; simpl in *;
    try lia; [assumption | apply IH; lia].
Qed.

Lemma np_median_within (lo hi : Q) (l : list Q) :
  l <> [] -> Forall (within lo hi) l -> within lo hi (np_median l).
Proof.
  intros Hne Hall. unfold np_median.
  pose proof (sort_ascending_Forall _ _ Hall) as Hs.
  assert (Hlen : (0 < length (sort_ascending l))%nat).
  { rewrite sort_ascending_length. destruct l; [congruence | simpl; lia]. }
  set (s := sort_ascending l) in *. set (n := length s) in *.
  assert (Hmid : (n / 2 < n)%nat) by (apply Nat.div_lt; lia).
  destruct (Nat.even n).
  - destruct (Forall_nth_default _ s (n / 2 - 1) Hs ltac:(lia)) as [A1 A2].
    destruct (Forall_nth_default _ s (n / 2) Hs Hmid) as [B1 B2].
    split.
    + apply Qle_shift_div_l; lra.
    + apply Qle_shift_div_r; lra.
  - exact (Forall_nth_default _ s (n / 2) Hs Hmid).
Qed.

(** The median of a non-empty list satisfies every property of its elements
    that is kept by taking the midpoint of two values. *)
Lemma np_median_convex (P : Q -> Prop) (l : list Q) :
  (forall a b, P a -> P b -> P ((a + b) / 2)) ->
  l <> [] -> Forall P l -> P (np_median l).
Proof.
  intros Hmid Hne Hall. unfold np_median.
  pose proof (sort_ascending_Forall _ _ Hall) as Hs.
  assert (Hlen : (0 < length (sort_ascending l))%nat).
  { rewrite sort_ascending_length. destruct l; [congruence | simpl; lia]. }
  set (s := sort_ascending l) in *. set (n := length s) in *.
  assert (Hn : (n / 2 < n)%nat) by (apply Nat.div_lt; lia).
  destruct (Nat.even n).
  - apply Hmid; apply Forall_nth_default; auto; lia.
  - apply Forall_nth_default; auto.
Qed.

(** ** The estimator *)

Section EstimatorFacts.

Context {Sample : Type}.
Variable yin : list Sample -> positive -> outcome (list frame).

Lemma detect_pitch_returns (segment : list Sample) (sr : positive) :
  detect_pitch yin segment sr = Returns (detected yin segment sr).
Proof.
  unfold detect_pitch, detected. destruct (yin segment sr) as [f0 | e]; simpl.
  - destruct (drop_nan f0); reflexivity.
  - reflexivity.
Qed.

Lemma accepted_Some (o : option Q) (h : Q) :
  accepted o = Some h <-> o = Some h /\ h < MAX_VALID_HZ.
Proof.
  unfold accepted. destruct o as [x|].
  - destruct (Qlt_le_dec x MAX_VALID_HZ) as [Hlt | Hle]; split.
    + intros [= <-]. auto.
    + intros [[= <-] _]. reflexivity.
    + discriminate.
    + intros [[= <-] Hlt]. lra.
  - split; [discriminate | intros [[=] _]].
Qed.

Lemma sub_window_step_returns (segment : list Sample) (sr : positive) (i : nat)
    (valid_hz_values : list Q) :
  sub_window_step yin segment sr i valid_hz_values =
  Returns (valid_hz_values ++
           omap (fun b : nat * nat => accepted (detected yin (slice segment (fst b) (snd b)) sr))
                [span SUB_WINDOWS (length segment) i]).
Proof.
  unfold sub_window_step.
  destruct (span SUB_WINDOWS (length segment) i) as [start stop] eqn:E.
  rewrite detect_pitch_returns. simpl.
  destruct (detected yin (slice segment start stop) sr) as [h|]; simpl.
  - destruct (Qlt_le_dec h MAX_VALID_HZ); rewrite ?app_nil_r; reflexivity.
  - rewrite app_nil_r. reflexivity.
Qed.

Lemma sub_window_loop (segment : list Sample) (sr : positive) :
  for_range SUB_WINDOWS [] (sub_window_step yin segment sr) =
  Returns (collected yin segment sr).
Proof.
  destruct (for_range_invariant
    (fun i st => st =
       omap (fun b : nat * nat => accepted (detected yin (slice segment (fst b) (snd b)) sr))
            (span SUB_WINDOWS (length segment) <$> seq 0 i))
    (sub_window_step yin segment sr) SUB_WINDOWS []) as (s' & Hrun & ->).
  - reflexivity.
  - intros i st _ ->. eexists. split; [apply sub_window_step_returns|].
    rewrite seq_S, fmap_app, omap_app. reflexivity.
  - exact Hrun.
Qed.

Lemma detected_nonneg (segment : list Sample) (sr : positive) (h : Q) :
  primitive_nonneg yin -> detected yin segment sr = Some h -> 0 <= h.
Proof.
  intros Hnn. unfold detected.
  destruct (yin segment sr) as [f0 | e] eqn:E; [|discriminate].
  specialize (Hnn _ _ _ E).
  destruct (drop_nan f0) as [|x l] eqn:El; [discriminate|].
  intros [= <-]. apply np_median_convex; [| discriminate | assumption].
  intros a b Ha Hb. apply Qle_shift_div_l; lra.
Qed.

Lemma collected_within (segment : list Sample) (sr : positive) :
  primitive_nonneg yin -> Forall (within 0 MAX_VALID_HZ) (collected yin segment sr).
Proof.
  intros Hnn. unfold collected. apply list.Forall_forall. intros h Hin.
  apply list_elem_of_omap in Hin. destruct Hin as (b & _ & Hb).
  apply accepted_Some in Hb. destruct Hb as [Hd Hlt].
  split; [eapply detected_nonneg; eassumption | lra].
Qed.

End EstimatorFacts.

Section RobustEstimator.

Context {Sample : Type}.
Variable yin : list Sample -> positive -> outcome (list frame).

(** Whatever the primitive does, [robust_pitch_detection] returns, and it
    returns [robust_value]. *)
Lemma robust_pitch_detection_cases (segment : list Sample) (sr : positive) :
  robust_pitch_detection yin segment sr = Returns (robust_value yin segment sr).
Proof.
  unfold robust_pitch_detection, robust_value. rewrite detect_pitch_returns. simpl.
  rewrite sub_window_loop. simpl.
  assert (Hfb :
    (if (0 <? length (collected yin segment sr))%nat
     then Returns (np_median (collected yin segment sr))
     else Returns MAX_VALID_HZ) =
    Returns match collected yin segment sr with
            | [] => MAX_VALID_HZ
            | _ :: _ => np_median (collected yin segment sr)
            end).
  { destruct (collected yin segment sr); reflexivity. }
  rewrite Hfb. unfold accepted.
  destruct (detected yin segment sr) as [h|]; [|reflexivity].
  destruct (Qlt_le_dec h MAX_VALID_HZ); reflexivity.
Qed.

Lemma within_midpoint (lo hi a b : Q) :
  within lo hi a -> within lo hi b -> within lo hi ((a + b) / 2).
Proof.
  intros [A1 A2] [B1 B2]. split.
  - apply Qle_shift_div_l; lra.
  - apply Qle_shift_div_r; lra.
Qed.

Lemma robust_value_within (segment : list Sample) (sr : positive) :
  primitive_nonneg yin -> within 0 MAX_VALID_HZ (robust_value yin segment sr).
Proof.
  intros Hnn. unfold robust_value.
  destruct (accepted (detected yin segment sr)) as [h|] eqn:Ea.
  - apply accepted_Some in Ea. destruct Ea as [Ed Hlt].
    pose proof (detected_nonneg yin _ _ _ Hnn Ed) as H0. split; lra.
  - pose proof (collected_within yin segment sr Hnn) as Hw.
    destruct (collected yin segment sr) as [|x l] eqn:Ec.
    + unfold MAX_VALID_HZ. split; lra.
    + apply np_median_convex; [apply within_midpoint | discriminate | assumption].
Qed.

End RobustEstimator.

(** ** Segmentation *)

Lemma length_spans (count total_len : nat) : length (spans count total_len) = count.
Proof. unfold spans. rewrite length_fmap, length_seq. reflexivity. Qed.

Lemma lookup_spans (count total_len i : nat) :
  (i < count)%nat -> spans count total_len !! i = Some (span count total_len i).
Proof.
  intros Hi. unfold spans. rewrite list_lookup_fmap, lookup_seq_lt by assumption.
  reflexivity.
Qed.

Lemma lookup_spans_Some (count total_len i : nat) (b : nat * nat) :
  spans count total_len !! i = Some b -> (i < count)%nat /\ b = span count total_len i.
Proof.
  intros H. assert (Hi : (i < count)%nat).
  { apply lookup_lt_Some in H. rewrite length_spans in H. exact H. }
  rewrite lookup_spans in H by assumption. split; congruence.
Qed.

Lemma span_inner (count total_len i : nat) :
  (i < count - 1)%nat ->
  span count total_len i = ((i * (total_len / count))%nat, ((i + 1) * (total_len / count))%nat).
Proof.
  intros Hi. unfold span.
  destruct (Nat.ltb_spec i (count - 1)); [reflexivity | lia].
Qed.

Lemma span_last (count total_len : nat) :
  span count total_len (count - 1) = (((count - 1) * (total_len / count))%nat, total_len).
Proof.
  unfold span. destruct (Nat.ltb_spec (count - 1) (count - 1)); [lia | reflexivity].
Qed.

Lemma span_ordered (count total_len i : nat) :
  (i < count)%nat -> (fst (span count total_len i) <= snd (span count total_len i))%nat.
Proof.
  intros Hi. pose proof (Nat.Div0.mul_div_le total_len count) as Hw.
  unfold span. destruct (Nat.ltb_spec i (count - 1)); simpl; nia.
Qed.

Lemma span_contiguous (count total_len i : nat) :
  (S i < count)%nat ->
  fst (span count total_len (S i)) = snd (span count total_len i).
Proof.
  intros Hi. rewrite (span_inner count total_len i) by lia.
  unfold span. simpl. lia.
Qed.

Lemma span_cover (count total_len k : nat) :
  (1 <= count)%nat -> (k < total_len)%nat ->
  exists i, (i < count)%nat /\
    (fst (span count total_len i) <= k < snd (span count total_len i))%nat.
Proof.
  intros Hc Hk. set (w := (total_len / count)%nat).
  destruct (Nat.lt_ge_cases k ((count - 1) * w)) as [Hin | Hlast].
  - assert (Hw : (0 < w)%nat) by nia.
    exists (k / w)%nat.
    assert (Hi : (k / w < count - 1)%nat).
    { apply Nat.Div0.div_lt_upper_bound; nia. }
    rewrite span_inner by assumption. fold w. simpl.
    pose proof (Nat.Div0.mul_div_le k w).
    pose proof (Nat.mul_succ_div_gt k w ltac:(lia)).
    split; [lia | nia].
  - exists (count - 1)%nat. rewrite span_last. fold w. simpl. lia.
Qed.

Lemma span_disjoint (count total_len i j k : nat) :
  (i < j)%nat -> (j < count)%nat ->
  (fst (span count total_len i) <= k < snd (span count total_len i))%nat ->
  (fst (span count total_len j) <= k < snd (span count total_len j))%nat ->
  False.
Proof.
  intros Hij Hj. rewrite (span_inner count total_len i) by lia.
  unfold span. simpl. nia.
Qed.

(** C4.  For every length [L] and every span count [N >= 1] the segmenter
    yields exactly [N] spans, in order; they are well-formed half-open
    intervals, the first starts at 0, each one starts where the previous one
    ends, the last one ends at [L]; every span but the last has width
    [L // N] and the last has width [L // N] plus the remainder [L mod N],
    which is between 0 and [N - 1]; every sample index below [L] lies in
    exactly one span and no span reaches beyond [L]. *)
Theorem spans_tile (L N : nat) :
  (1 <= N)%nat ->
  length (spans N L) = N /\
  (forall i a b, spans N L !! i = Some (a, b) -> (a <= b <= L)%nat) /\
  (exists b, spans N L !! 0%nat = Some (0%nat, b)) /\
  (forall i a b c d, spans N L !! i = Some (a, b) -> spans N L !! S i = Some (c, d) -> c = b) /\
  (exists a, spans N L !! (N - 1)%nat = Some (a, L)) /\
  (forall i a b, (i < N - 1)%nat -> spans N L !! i = Some (a, b) -> (b - a = L / N)%nat) /\
  (forall a b, spans N L !! (N - 1)%nat = Some (a, b) ->
     (b - a = L / N + L mod N)%nat /\ (L mod N <= N - 1)%nat) /\
  (forall k, (k < L)%nat ->
     exists i a b, spans N L !! i = Some (a, b) /\ (a <= k < b)%nat) /\
  (forall k i j a b c d,
     spans N L !! i = Some (a, b) -> (a <= k < b)%nat ->
     spans N L !! j = Some (c, d) -> (c <= k < d)%nat -> i = j).
Proof.
  intros HN.
  pose proof (Nat.Div0.mul_div_le L N) as Hw.
  pose proof (Nat.div_mod_eq L N) as Hdm.
  pose proof (Nat.mod_upper_bound L N ltac:(lia)) as Hmod.
  split; [apply length_spans|].
  split.
  { intros i a b H. apply lookup_spans_Some in H. destruct H as [Hi E].
    pose proof (span_ordered N L i Hi) as Ho. rewrite <- E in Ho. simpl in Ho.
    split; [exact Ho|].
    unfold span in E. destruct (Nat.ltb_spec i (N - 1)); injection E as -> ->; nia. }
  split.
  { eexists. rewrite lookup_spans by lia. unfold span. simpl. reflexivity. }
  split.
  { intros i a b c d Hi Hsi.
    apply lookup_spans_Some in Hi. destruct Hi as [_ Ei].
    apply lookup_spans_Some in Hsi. destruct Hsi as [Hlt Esi].
    pose proof (span_contiguous N L i Hlt) as Hc.
    rewrite <- Ei, <- Esi in Hc. exact Hc. }
  split.
  { eexists. rewrite lookup_spans by lia. rewrite span_last. reflexivity. }
  split.
  { intros i a b Hi H. apply lookup_spans_Some in H. destruct H as [_ E].
    rewrite span_inner in E by assumption. injection E as -> ->. lia. }
  split.
  { intros a b H. apply lookup_spans_Some in H. destruct H as [_ E].
    rewrite span_last in E. injection E as -> ->. split; [nia | lia]. }
  split.
  { intros k Hk. destruct (span_cover N L k HN Hk) as (i & Hi & Hin).
    exists i, (fst (span N L i)), (snd (span N L i)).
    rewrite lookup_spans by assumption. split; [|exact Hin].
    destruct (span N L i); reflexivity. }
  intros k i j a b c d Hi Hki Hj Hkj.
  apply lookup_spans_Some in Hi. destruct Hi as [Hi Ei].
  apply lookup_spans_Some in Hj. destruct Hj as [Hj Ej].
  destruct (Nat.lt_trichotomy i j) as [Hlt | [Heq | Hgt]]; [| exact Heq |].
  - exfalso. apply (span_disjoint N L i j k Hlt Hj); rewrite <- ?Ei, <- ?Ej; assumption.
  - exfalso. apply (span_disjoint N L j i k Hgt Hi); rewrite <- ?Ei, <- ?Ej; assumption.
Qed.

(** ** Smoothing *)

Lemma length_smooth_hz_values (hz_list : list Q) :
  length (smooth_hz_values hz_list) = length hz_list.
Proof. unfold smooth_hz_values. rewrite length_fmap, length_seq. reflexivity. Qed.

Lemma lookup_smooth_hz_values (hz_list : list Q) (i : nat) :
  (i < length hz_list)%nat ->
  smooth_hz_values hz_list !! i = Some (smooth_at hz_list i).
Proof.
  intros Hi. unfold smooth_hz_values.
  rewrite list_lookup_fmap, lookup_seq_lt by assumption. reflexivity.
Qed.

Lemma take_drop_2 {A : Type} (l : list A) (i : nat) (a b : A) :
  l !! i = Some a -> l !! S i = Some b -> take 2 (drop i l) = [a; b].
Proof.
  revert l. induction i as [|i IH]; intros [|x l]; simpl; try discriminate.
  - intros [= ->]. destruct l as [|y l]; simpl; [discriminate|].
    intros [= ->]. reflexivity.
  - apply IH.
Qed.

Lemma take_drop_3 {A : Type} (l : list A) (i : nat) (a b c : A) :
  l !! i = Some a -> l !! S i = Some b -> l !! S (S i) = Some c ->
  take 3 (drop i l) = [a; b; c].
Proof.
  revert l. induction i as [|i IH]; intros [|x l]; simpl; try discriminate.
  - intros [= ->]. destruct l as [|y [|z l]]; simpl; try discriminate.
    intros [= ->] [= ->]. reflexivity.
  - apply IH.
Qed.

Lemma window_first (l : list Q) (a b : Q) :
  l !! 0%nat = Some a -> l !! 1%nat = Some b -> window l 0 = [a; b].
Proof. intros Ha Hb. unfold window, slice. simpl. apply take_drop_2; assumption. Qed.

Lemma window_last (l : list Q) (a b : Q) :
  (2 <= length l)%nat ->
  l !! (length l - 2)%nat = Some a -> l !! (length l - 1)%nat = Some b ->
  window l (length l - 1) = [a; b].
Proof.
  intros Hn Ha Hb. unfold window.
  destruct (Nat.eqb_spec (length l - 1) 0); [lia|].
  rewrite Nat.eqb_refl. unfold last_n.
  rewrite <- (take_drop_2 l (length l - 2) a b Ha).
  - symmetry. apply take_ge. rewrite length_drop. lia.
  - replace (S (length l - 2)) with (length l - 1)%nat by lia. exact Hb.
Qed.

Lemma window_inner (l : list Q) (i : nat) (a b c : Q) :
  (0 < i < length l - 1)%nat ->
  l !! (i - 1)%nat = Some a -> l !! i = Some b -> l !! (i + 1)%nat = Some c ->
  window l i = [a; b; c].
Proof.
  intros Hi Ha Hb Hc. unfold window.
  destruct (Nat.eqb_spec i 0); [lia|].
  destruct (Nat.eqb_spec i (length l - 1)); [lia|].
  unfold slice. replace (i + 2 - (i - 1))%nat with 3%nat by lia.
  apply take_drop_3; [assumption | |].
  - replace (S (i - 1)) with i by lia. assumption.
  - replace (S (S (i - 1))) with (i + 1)%nat by lia. assumption.
Qed.

Lemma np_mean_1 (a : Q) : np_mean [a] == a.
Proof. unfold np_mean. simpl. change (Q_of_nat 1) with 1. field. Qed.

Lemma np_mean_2 (a b : Q) : np_mean [a; b] == (a + b) / 2.
Proof. unfold np_mean. simpl. change (Q_of_nat 2) with 2. field. Qed.

Lemma np_mean_3 (a b c : Q) : np_mean [a; b; c] == (a + b + c) / 3.
Proof. unfold np_mean. simpl. change (Q_of_nat 3) with 3. field. Qed.

(** The slice averaged at a position of the list is never empty and is made
    of elements of the list. *)
Lemma window_nonempty (l : list Q) (i : nat) :
  (i < length l)%nat -> window l i <> [].
Proof.
  intros Hi E. apply (f_equal length) in E. revert E.
  change (length (@nil Q)) with 0%nat. unfold window, slice, last_n.
  destruct (Nat.eqb_spec i 0); [|destruct (Nat.eqb_spec i (length l - 1))];
    rewrite ?length_take, ?length_drop; lia.
Qed.

Lemma window_Forall (P : Q -> Prop) (l : list Q) (i : nat) :
  Forall P l -> Forall P (window l i).
Proof.
  intros H. unfold window, slice, last_n.
  destruct (i =? 0)%nat; [|destruct (i =? length l - 1)%nat];
    auto using Forall_take, Forall_drop.
Qed.

Lemma smooth_at_within (lo hi : Z) (l : list Q) (i : nat) :
  (i < length l)%nat ->
  Forall (within (inject_Z lo) (inject_Z hi)) l ->
  within (inject_Z lo) (inject_Z hi) (smooth_at l i).
Proof.
  intros Hi Hall.
  destruct (np_mean_within _ _ _ (window_nonempty l i Hi) (window_Forall _ l i Hall))
    as [H1 H2].
  unfold smooth_at.
  split; [apply py_round_2_lower | apply py_round_2_upper]; assumption.
Qed.

Lemma smooth_hz_values_within (lo hi : Z) (l : list Q) :
  Forall (within (inject_Z lo) (inject_Z hi)) l ->
  Forall (within (inject_Z lo) (inject_Z hi)) (smooth_hz_values l).
Proof.
  intros Hall. apply Forall_lookup. intros i x Hx.
  assert (Hi : (i < length l)%nat).
  { apply lookup_lt_Some in Hx. rewrite length_smooth_hz_values in Hx. exact Hx. }
  rewrite lookup_smooth_hz_values in Hx by assumption. injection Hx as <-.
  apply smooth_at_within; assumption.
Qed.

Lemma smooth_at_constant (v : Q) (n i : nat) :
  (i < n)%nat -> smooth_at (replicate n v) i = py_round v 2.
Proof.
  intros Hi. unfold smooth_at. apply py_round_proper.
  assert (Hw : within v v (np_mean (window (replicate n v) i))).
  { apply np_mean_within.
    - apply window_nonempty. rewrite length_replicate. exact Hi.
    - apply window_Forall. apply Forall_replicate. split; lra. }
  destruct Hw. lra.
Qed.

Lemma smooth_hz_values_constant (v : Q) (n : nat) :
  smooth_hz_values (replicate n v) = replicate n (py_round v 2).
Proof.
  apply list_eq. intros i.
  destruct (Nat.lt_ge_cases i n) as [Hi | Hi].
  - rewrite lookup_smooth_hz_values by (rewrite length_replicate; exact Hi).
    rewrite smooth_at_constant by exact Hi.
    symmetry. apply lookup_replicate_2. exact Hi.
  - rewrite (lookup_ge_None_2 (smooth_hz_values _)), (lookup_ge_None_2 (replicate _ _));
      rewrite ?length_smooth_hz_values, ?length_replicate; auto.
Qed.

(** C10.  On a one-element input [x] the result is [round(x, 2)]: position 0
    is averaged over [hz_list[0:2]] by the first-position branch whatever the
    length, also when it is the last position.  On the empty input the result
    is the empty list. *)
Theorem smooth_hz_values_short (x : Q) :
  smooth_hz_values [x] = [py_round x 2] /\
  (forall l : list Q, window l 0 = slice l 0 2) /\
  smooth_hz_values [] = [].
Proof.
  split; [|split; reflexivity].
  change (smooth_hz_values [x]) with [smooth_at [x] 0]. unfold smooth_at.
  f_equal. apply py_round_proper. change (window [x] 0) with [x]. apply np_mean_1.
Qed.

(** ** Loops that append one element per iteration *)

Lemma for_range_collect {A : Type} (g : nat -> A)
    (body : nat -> list A -> outcome (list A)) (n : nat) :
  (forall i l, body i l = Returns (l ++ [g i])) ->
  for_range n [] body = Returns (g <$> seq 0 n).
Proof.
  intros Hbody.
  destruct (for_range_invariant (fun i l => l = g <$> seq 0 i) body n [])
    as (l & Hrun & ->).
  - reflexivity.
  - intros i l _ ->. eexists. split; [apply Hbody|].
    rewrite seq_S, fmap_app. reflexivity.
  - exact Hrun.
Qed.

Lemma for_range_collect2 {A B : Type} (g : nat -> A) (h : nat -> B)
    (body : nat -> list A * list B -> outcome (list A * list B)) (n : nat) :
  (forall i la lb, body i (la, lb) = Returns (la ++ [g i], lb ++ [h i])) ->
  for_range n ([], []) body = Returns (g <$> seq 0 n, h <$> seq 0 n).
Proof.
  intros Hbody.
  destruct (for_range_invariant
              (fun i st => st = (g <$> seq 0 i, h <$> seq 0 i)) body n ([], []))
    as (st & Hrun & ->).
  - reflexivity.
  - intros i st _ ->. eexists. split; [apply Hbody|].
    rewrite seq_S, !fmap_app. reflexivity.
  - exact Hrun.
Qed.

Lemma getitem_Some {A : Type} (l : list A) (i : nat) (x : A) :
  l !! i = Some x -> getitem l i = Returns x.
Proof. unfold getitem. intros ->. reflexivity. Qed.

(** ** The coarse estimates *)

Section CoarseEstimates.

Context {Sample : Type}.
Variable yin : list Sample -> positive -> outcome (list frame).

Lemma length_raw_hz_values (count : nat) (y : list Sample) (sr : positive) :
  length (raw_hz_values yin count y sr) = count.
Proof. unfold raw_hz_values. rewrite length_fmap. apply length_spans. Qed.

Lemma raw_hz_values_robust (count : nat) (y : list Sample) (sr : positive) :
  Forall2 (fun (b : nat * nat) r =>
             robust_pitch_detection yin (slice y (fst b) (snd b)) sr = Returns r)
          (spans count (length y)) (raw_hz_values yin count y sr).
Proof.
  unfold raw_hz_values. apply Forall2_fmap_r, Forall_Forall2_diag, Forall_true.
  intros b. apply robust_pitch_detection_cases.
Qed.

Lemma raw_hz_values_within (count : nat) (y : list Sample) (sr : positive) :
  primitive_nonneg yin -> Forall (within 0 MAX_VALID_HZ) (raw_hz_values yin count y sr).
Proof.
  intros Hnn. unfold raw_hz_values. apply Forall_fmap, Forall_true.
  intros b. apply robust_value_within. exact Hnn.
Qed.

Lemma main_estimate_loop (y : list Sample) (sr : positive) :
  for_range Main.TIME_MARKS ([], []) (Main.estimate_step yin y sr) =
  Returns (raw_hz_values yin Main.TIME_MARKS y sr, spans Main.TIME_MARKS (length y)).
Proof.
  unfold raw_hz_values, spans. rewrite <- list_fmap_compose.
  apply for_range_collect2. intros i la lb. unfold Main.estimate_step.
  destruct (span Main.TIME_MARKS (length y) i) as [a b] eqn:E.
  rewrite robust_pitch_detection_cases. unfold compose. rewrite E. reflexivity.
Qed.

Lemma main2_estimate_loop (y : list Sample) (sr : positive) :
  for_range Main2.TIME_MARKS ([], []) (Main2.estimate_step yin y sr) =
  Returns (raw_hz_values yin Main2.TIME_MARKS y sr, spans Main2.TIME_MARKS (length y)).
Proof.
  unfold raw_hz_values, spans. rewrite <- list_fmap_compose.
  apply for_range_collect2. intros i la lb. unfold Main2.estimate_step.
  destruct (span Main2.TIME_MARKS (length y) i) as [a b] eqn:E.
  rewrite robust_pitch_detection_cases. unfold compose. rewrite E. reflexivity.
Qed.

End CoarseEstimates.

(** ** Nearest valid reference point *)

Lemma min_by_key_spec {A : Type} (key : A -> Q) (rest : list A) :
  forall best : A,
  exists i : nat,
    (best :: rest) !! i = Some (min_by_key key best rest) /\
    forall j x, (best :: rest) !! j = Some x ->
      key (min_by_key key best rest) <= key x /\
      ((j < i)%nat -> key (min_by_key key best rest) < key x).
Proof.
  induction rest as [|x rest IH]; intros best.
  - exists 0%nat. split; [reflexivity|].
    intros [|j] y; simpl; [|discriminate]. intros [= <-]. split; [lra | lia].
  - simpl min_by_key. destruct (Qlt_le_dec (key x) (key best)) as [Hlt | Hle].
    + destruct (IH x) as (i & Hi & Hmin). exists (S i). split; [exact Hi|].
      destruct (Hmin 0%nat x eq_refl) as [Hmx _].
      intros [|j] y Hy.
      * injection Hy as <-. split; [lra | intros _; lra].
      * destruct (Hmin j y Hy) as [H1 H2]. split; [exact H1 | intros; apply H2; lia].
    + destruct (IH best) as (i & Hi & Hmin).
      destruct (Hmin 0%nat best eq_refl) as [Hmb Hmb'].
      exists (match i with O => O | S i' => S (S i') end). split.
      { destruct i; [exact Hi | exact Hi]. }
      intros [|[|j]] y Hy.
      * destruct (Hmin 0%nat y Hy) as [H1 H2]. split; [exact H1|].
        destruct i; [lia | intros _; apply H2; lia].
      * injection Hy as <-. split; [lra|].
        destruct i; [lia|]. intros _. specialize (Hmb' ltac:(lia)). lra.
      * destruct (Hmin (S j) y Hy) as [H1 H2]. split; [exact H1|].
        destruct i; [lia | intros; apply H2; lia].
Qed.

Lemma valid_points_sublist (ps : list Main2.ReferencePoint) :
  sublist ((fun p : Q * Q => {| Main2.rp_time := fst p; Main2.rp_hz := Some (snd p) |})
             <$> Main2.valid_points ps) ps.
Proof.
  induction ps as [|[t [h|]] ps IH]; simpl.
  - constructor.
  - destruct (Qle_bool Main2.MIN_VALID_HZ h); simpl; constructor; exact IH.
  - constructor. exact IH.
Qed.

Lemma valid_points_elem (ps : list Main2.ReferencePoint) (t h : Q) :
  (t, h) ∈ Main2.valid_points ps <->
  exists p, p ∈ ps /\ Main2.rp_time p = t /\ Main2.rp_hz p = Some h /\
            Main2.MIN_VALID_HZ <= h.
Proof.
  induction ps as [|p ps IH]; simpl.
  - split; [intros H; inversion H | intros (p & H & _); inversion H].
  - destruct p as [tp [hp|]]; simpl.
    + destruct (Qle_bool Main2.MIN_VALID_HZ hp) eqn:E.
      * rewrite elem_of_cons, IH. split.
        -- intros [[= -> ->] | (p & Hp & H)].
           ++ eexists. split; [left|]. simpl. apply Qle_bool_iff in E. auto.
           ++ exists p. split; [right; exact Hp | exact H].
        -- intros (p & Hp & Ht & Hh & Hm). apply elem_of_cons in Hp.
           destruct Hp as [-> | Hp].
           ++ left. simpl in *. congruence.
           ++ right. exists p. auto.
      * rewrite IH. split.
        -- intros (p & Hp & H). exists p. split; [right; exact Hp | exact H].
        -- intros (p & Hp & Ht & Hh & Hm). apply elem_of_cons in Hp.
           destruct Hp as [-> | Hp].
           ++ simpl in *. injection Hh as ->. apply Qle_bool_iff in Hm. congruence.
           ++ exists p. auto.
    + rewrite IH. split.
      * intros (p & Hp & H). exists p. split; [right; exact Hp | exact H].
      * intros (p & Hp & Ht & Hh & Hm). apply elem_of_cons in Hp.
        destruct Hp as [-> | Hp]; [discriminate|]. exists p. auto.
Qed.

Lemma find_nearest_valid_hz_floor (target_time : Q) (ps : list Main2.ReferencePoint) :
  Main2.valid_points ps = [] ->
  Main2.find_nearest_valid_hz target_time ps = Main2.MIN_VALID_HZ.
Proof. unfold Main2.find_nearest_valid_hz. intros ->. reflexivity. Qed.

Lemma find_nearest_valid_hz_nearest (target_time : Q) (ps : list Main2.ReferencePoint) :
  Main2.valid_points ps <> [] ->
  exists (i : nat) (t h : Q),
    Main2.valid_points ps !! i = Some (t, h) /\
    Main2.find_nearest_valid_hz target_time ps = h /\
    forall j t' h', Main2.valid_points ps !! j = Some (t', h') ->
      Qabs (t - target_time) <= Qabs (t' - target_time) /\
      ((j < i)%nat -> Qabs (t - target_time) < Qabs (t' - target_time)).
Proof.
  intros Hne. unfold Main2.find_nearest_valid_hz.
  destruct (Main2.valid_points ps) as [|p rest]; [congruence|].
  destruct (min_by_key_spec (fun p : Q * Q => Qabs (fst p - target_time)) rest p)
    as (i & Hi & Hmin).
  set (m := min_by_key _ p rest) in *.
  exists i, (fst m), (snd m). split; [rewrite Hi; destruct m; reflexivity|].
  split; [reflexivity|].
  intros j t' h' Hj. exact (Hmin j (t', h') Hj).
Qed.

(** The value handed back by the lookup is the floor or the frequency of a
    reference point that is at least the floor. *)
Lemma find_nearest_valid_hz_source (target_time : Q) (ps : list Main2.ReferencePoint) :
  Main2.find_nearest_valid_hz target_time ps = Main2.MIN_VALID_HZ \/
  exists p, p ∈ ps /\
    Main2.rp_hz p = Some (Main2.find_nearest_valid_hz target_time ps) /\
    Main2.MIN_VALID_HZ <= Main2.find_nearest_valid_hz target_time ps.
Proof.
  destruct (Main2.valid_points ps) as [|v vs] eqn:E.
  - left. apply find_nearest_valid_hz_floor. exact E.
  - right. destruct (find_nearest_valid_hz_nearest target_time ps) as (i & t & h & Hi & -> & _).
    { rewrite E. discriminate. }
    apply list_elem_of_lookup_2, valid_points_elem in Hi.
    destruct Hi as (p & Hp & _ & Hh & Hm). exists p. auto.
Qed.

(** ** The gap-filling pipeline ([main2.py]) *)

Lemma mark_step_returns (name : string) (sr : positive)
    (prescan_data : list Main2.ReferencePoint) (segment_boundaries : list (nat * nat))
    (i : nat) (st : Main2.loop_state) (b : nat * nat) (s : Q) :
  segment_boundaries !! i = Some b ->
  Main2.hz_values st !! i = Some s ->
  Main2.mark_step name sr prescan_data segment_boundaries i st =
  Returns
    {| Main2.hz_values :=
         if Qlt_le_dec s Main2.MIN_VALID_HZ
         then <[i := patched prescan_data sr b s]> (Main2.hz_values st)
         else Main2.hz_values st;
       Main2.results :=
         Main2.results st ++
         [mark_result name prescan_data sr
            (if (i =? 10)%nat then Main2.prev_end_time st else Main2.reset_time st) i b s];
       Main2.reset_time :=
         if (i =? 10)%nat then Main2.prev_end_time st else Main2.reset_time st;
       Main2.prev_end_time := end_time sr b |}.
Proof.
  intros Hb Hs. unfold Main2.mark_step.
  rewrite (getitem_Some _ _ _ Hb). simpl bind. destruct b as [start stop].
  rewrite (getitem_Some _ _ _ Hs). simpl bind.
  assert (Hlen : (i < length (Main2.hz_values st))%nat) by (eapply lookup_lt_Some; eauto).
  unfold mark_result, patched.
  change ((Q_of_nat start / Q_of_pos sr + Q_of_nat stop / Q_of_pos sr) / 2)
    with (midpoint_time sr (start, stop)).
  change (Q_of_nat stop / Q_of_pos sr) with (end_time sr (start, stop)).
  destruct (Qlt_le_dec s Main2.MIN_VALID_HZ) as [Hlow | Hok].
  - unfold setitem. destruct (Nat.ltb_spec i (length (Main2.hz_values st))); [|lia].
    simpl bind.
    rewrite (getitem_Some _ _ _ (list_lookup_insert_eq _ _ _ Hlen)). simpl bind.
    destruct (i <? 10)%nat; reflexivity.
  - simpl bind. rewrite (getitem_Some _ _ _ Hs). simpl bind.
    destruct (i <? 10)%nat; reflexivity.
Qed.

Lemma mark_result_anchor (name : string) (prescan_data : list Main2.ReferencePoint)
    (sr : positive) (a a' : Q) (i : nat) (b : nat * nat) (s : Q) :
  ((10 <= i)%nat -> a = a') ->
  mark_result name prescan_data sr a i b s = mark_result name prescan_data sr a' i b s.
Proof.
  intros H. unfold mark_result. destruct (Nat.ltb_spec i 10); [reflexivity|].
  rewrite (H ltac:(lia)). reflexivity.
Qed.

Lemma mark_loop (name : string) (prescan_data : list Main2.ReferencePoint)
    (sr : positive) (total_len : nat) (smoothed : list Q) :
  length smoothed = Main2.TIME_MARKS ->
  exists final,
    for_range Main2.TIME_MARKS
      {| Main2.hz_values := smoothed; Main2.results := [];
         Main2.reset_time := 0; Main2.prev_end_time := 0 |}
      (Main2.mark_step name sr prescan_data (spans Main2.TIME_MARKS total_len))
    = Returns final /\
    mark_loop_inv name prescan_data sr total_len smoothed Main2.TIME_MARKS final.
Proof.
  intros Hlen. apply for_range_invariant.
  - repeat split; simpl; try reflexivity; try lia.
  - intros i st Hi (Hl & Hrest & Hres & Hdone & Hprev & Hreset).
    destruct (lookup_lt_is_Some_2 smoothed i ltac:(lia)) as [s Hs].
    pose proof (lookup_spans Main2.TIME_MARKS total_len i Hi) as Hb.
    assert (Hcur : Main2.hz_values st !! i = Some s) by (rewrite Hrest by lia; exact Hs).
    eexists. split; [apply (mark_step_returns _ _ _ _ _ _ _ _ Hb Hcur)|].
    unfold mark_loop_inv. simpl.
    split; [destruct (Qlt_le_dec s Main2.MIN_VALID_HZ); rewrite ?length_insert; exact Hl|].
    split.
    { intros j Hj. destruct (Qlt_le_dec s Main2.MIN_VALID_HZ).
      - rewrite list_lookup_insert_ne by lia. apply Hrest. lia.
      - apply Hrest. lia. }
    split; [rewrite length_app, Hres; simpl; lia|].
    assert (Hanchor : (10 <= i)%nat ->
              (if (i =? 10)%nat then Main2.prev_end_time st else Main2.reset_time st)
              = reset_anchor sr total_len).
    { intros H10. destruct (Nat.eqb_spec i 10) as [-> | Hne].
      - rewrite Hprev. reflexivity.
      - apply Hreset. lia. }
    split.
    { intros j s' Hj Hs'. destruct (Nat.eq_dec j i) as [-> | Hne].
      - rewrite lookup_app_r by lia. rewrite Hres, Nat.sub_diag. simpl.
        assert (s' = s) as -> by congruence.
        f_equal. apply mark_result_anchor. exact Hanchor.
      - rewrite lookup_app_l by lia. apply Hdone; [lia | exact Hs']. }
    split; [reflexivity|].
    intros H10. apply Hanchor. lia.
Qed.

Section GapFilling.

Context {Sample : Type}.
Variable yin : list Sample -> positive -> outcome (list frame).

Lemma prescan_300_marks_returns (y : list Sample) (sr : positive) :
  Main2.prescan_300_marks yin y sr = Returns (prescan_points yin y sr).
Proof.
  unfold Main2.prescan_300_marks, prescan_points, spans.
  rewrite <- list_fmap_compose. apply for_range_collect.
  intros i l. unfold Main2.prescan_step, compose.
  destruct (span Main2.PRE_SCAN_MARKS (length y) i) as [a b].
  rewrite detect_pitch_returns. reflexivity.
Qed.

Lemma length_smoothed_hz_values (y : list Sample) (sr : positive) :
  length (smoothed_hz_values yin y sr) = Main2.TIME_MARKS.
Proof.
  unfold smoothed_hz_values.
  rewrite length_smooth_hz_values. apply length_raw_hz_values.
Qed.

(** The whole of [process_audio_file]: it returns, with one record per
    mark, each a function of the smoothed estimate of that mark, of its
    bounds and of the reference points. *)
Lemma main2_process_audio_file_returns (name : string) (y : list Sample) (sr : positive) :
  exists res,
    Main2.process_audio_file yin name y sr = Returns res /\
    length res = Main2.TIME_MARKS /\
    forall i s, smoothed_hz_values yin y sr !! i = Some s ->
      res !! i =
      Some (mark_result name (prescan_points yin y sr) sr (reset_anchor sr (length y)) i
              (span Main2.TIME_MARKS (length y) i) s).
Proof.
  destruct (mark_loop name (prescan_points yin y sr) sr (length y)
              (smoothed_hz_values yin y sr) (length_smoothed_hz_values y sr))
    as (final & Hrun & _ & _ & Hlen & Hdone & _).
  exists (Main2.results final). split; [|split; [exact Hlen|]].
  - unfold Main2.process_audio_file.
    rewrite prescan_300_marks_returns. simpl bind.
    rewrite main2_estimate_loop. simpl bind.
    fold (smoothed_hz_values yin y sr). rewrite Hrun. reflexivity.
  - intros i s Hs. apply Hdone; [|exact Hs].
    apply lookup_lt_Some in Hs. rewrite length_smoothed_hz_values in Hs. exact Hs.
Qed.

End GapFilling.

(** ** The plain pipeline ([main.py]) *)

Lemma main_emit_loop (name : string) (sr : positive) (hz_values : list Q) (total_len : nat) :
  length hz_values = Main.TIME_MARKS ->
  exists res,
    for_range Main.TIME_MARKS []
      (Main.emit_step name sr hz_values (spans Main.TIME_MARKS total_len)) = Returns res /\
    length res = Main.TIME_MARKS /\
    forall i h, hz_values !! i = Some h ->
      res !! i = Some (main_result name sr i (span Main.TIME_MARKS total_len i) h).
Proof.
  intros Hlen.
  destruct (for_range_invariant
    (fun i res =>
       length res = i /\
       forall j h, (j < i)%nat -> hz_values !! j = Some h ->
         res !! j = Some (main_result name sr j (span Main.TIME_MARKS total_len j) h))
    (Main.emit_step name sr hz_values (spans Main.TIME_MARKS total_len))
    Main.TIME_MARKS []) as (res & Hrun & Hl & Hdone).
  - split; [reflexivity | intros; lia].
  - intros i res Hi [Hl Hdone].
    destruct (lookup_lt_is_Some_2 hz_values i ltac:(lia)) as [h Hh].
    pose proof (lookup_spans Main.TIME_MARKS total_len i Hi) as Hb.
    exists (res ++ [main_result name sr i (span Main.TIME_MARKS total_len i) h]).
    split.
    + unfold Main.emit_step. rewrite (getitem_Some _ _ _ Hb).
      destruct (span Main.TIME_MARKS total_len i) as [a b]. unfold bind at 1.
      rewrite (getitem_Some _ _ _ Hh). reflexivity.
    + split; [rewrite length_app, Hl; simpl; lia|].
      intros j h' Hj Hh'. destruct (Nat.eq_dec j i) as [-> | Hne].
      * rewrite lookup_app_r by lia. rewrite Hl, Nat.sub_diag. simpl. congruence.
      * rewrite lookup_app_l by lia. apply Hdone; [lia | exact Hh'].
  - exists res. split; [exact Hrun|]. split; [exact Hl|].
    intros i h Hh. apply Hdone; [|exact Hh].
    apply lookup_lt_Some in Hh. lia.
Qed.

Section PlainPipeline.

Context {Sample : Type}.
Variable yin : list Sample -> positive -> outcome (list frame).

Lemma main_process_audio_file_returns (name : string) (y : list Sample) (sr : positive) :
  exists res,
    Main.process_audio_file yin name y sr = Returns res /\
    length res = Main.TIME_MARKS /\
    forall i h, smooth_hz_values (raw_hz_values yin Main.TIME_MARKS y sr) !! i = Some h ->
      res !! i = Some (main_result name sr i (span Main.TIME_MARKS (length y) i) h).
Proof.
  destruct (main_emit_loop name sr
              (smooth_hz_values (raw_hz_values yin Main.TIME_MARKS y sr)) (length y))
    as (res & Hrun & Hlen & Hdone).
  { rewrite length_smooth_hz_values. apply length_raw_hz_values. }
  exists res. split; [|split; assumption].
  unfold Main.process_audio_file. rewrite main_estimate_loop. simpl bind. exact Hrun.
Qed.

End PlainPipeline.

(** ** Bounds on the emitted frequencies *)

(** A list whose entries are all described by a function of the index
    satisfies a property when the function does. *)
Lemma Forall_by_lookup {A B : Type} (P : B -> Prop) (src : list A) (res : list B)
    (f : nat -> A -> B) :
  length res = length src ->
  (forall i a, src !! i = Some a -> res !! i = Some (f i a)) ->
  (forall i a, src !! i = Some a -> P (f i a)) ->
  Forall P res.
Proof.
  intros Hlen Hres HP. apply Forall_lookup. intros i r Hr.
  destruct (lookup_lt_is_Some_2 src i) as [a Ha].
  { rewrite <- Hlen. eapply lookup_lt_Some. exact Hr. }
  rewrite (Hres i a Ha) in Hr. injection Hr as <-. apply (HP i a Ha).
Qed.

Lemma Forall_lookup_within (lo hi : Q) (l : list Q) (i : nat) (x : Q) :
  Forall (within lo hi) l -> l !! i = Some x -> within lo hi x.
Proof. intros H Hx. exact (proj1 (Forall_lookup _ l) H i x Hx). Qed.

Lemma patched_floor (prescan_data : list Main2.ReferencePoint) (sr : positive)
    (b : nat * nat) (s : Q) :
  Main2.MIN_VALID_HZ <= patched prescan_data sr b s.
Proof.
  unfold patched. destruct (Qlt_le_dec s Main2.MIN_VALID_HZ) as [Hlow | Hok]; [|exact Hok].
  apply (py_round_2_lower _ 75).
  destruct (find_nearest_valid_hz_source (midpoint_time sr b) prescan_data)
    as [-> | (p & _ & _ & Hm)]; [apply Qle_refl | exact Hm].
Qed.

Section Bounds.

Context {Sample : Type}.
Variable yin : list Sample -> positive -> outcome (list frame).

Lemma detected_below (B : Z) (segment : list Sample) (sr : positive) (h : Q) :
  primitive_below yin B -> detected yin segment sr = Some h -> h <= inject_Z B.
Proof.
  intros HB. unfold detected.
  destruct (yin segment sr) as [f0 | e] eqn:E; [|discriminate].
  specialize (HB _ _ _ E).
  destruct (drop_nan f0) as [|x l] eqn:El; [discriminate|].
  intros [= <-]. apply (np_median_convex (fun h => h <= inject_Z B));
    [| discriminate | assumption].
  intros a b Ha Hb. apply Qle_shift_div_r; [reflexivity|].
  generalize dependent (inject_Z B). intros q _ Ha Hb. lra.
Qed.


Lemma robust_value_fails (segment : list Sample) (sr : positive) :
  primitive_fails yin -> robust_value yin segment sr = MAX_VALID_HZ.
Proof.
  intros Hf. unfold robust_value. rewrite (Hf segment sr). simpl.
  assert (E : collected yin segment sr = []).
  { unfold collected. induction (spans SUB_WINDOWS (length segment)) as [|b l IH];
      [reflexivity|]. simpl. rewrite (Hf (slice segment (fst b) (snd b)) sr). exact IH. }
  rewrite E. reflexivity.
Qed.

Lemma raw_hz_values_fails (count : nat) (y : list Sample) (sr : positive) :
  primitive_fails yin -> raw_hz_values yin count y sr = replicate count MAX_VALID_HZ.
Proof.
  intros Hf. unfold raw_hz_values.
  rewrite <- (length_spans count (length y)) at 2.
  apply const_fmap. intros i b _. apply robust_value_fails. exact Hf.
Qed.

Lemma smoothed_fails (count : nat) (y : list Sample) (sr : positive) :
  primitive_fails yin ->
  smooth_hz_values (raw_hz_values yin count y sr) =
  replicate count (py_round MAX_VALID_HZ 2).
Proof.
  intros Hf. rewrite (raw_hz_values_fails count y sr Hf).
  apply smooth_hz_values_constant.
Qed.

End Bounds.

Section PipelineBounds.

Context {Sample : Type}.
Variable yin : list Sample -> positive -> outcome (list frame).

Lemma smoothed_within (count : nat) (y : list Sample) (sr : positive) :
  primitive_nonneg yin ->
  Forall (within 0 MAX_VALID_HZ) (smooth_hz_values (raw_hz_values yin count y sr)).
Proof.
  intros Hnn. apply (smooth_hz_values_within 0 350).
  apply (raw_hz_values_within yin count y sr Hnn).
Qed.

Lemma main_hz_within (name : string) (y : list Sample) (sr : positive)
    (res : list MarkResult) :
  primitive_nonneg yin ->
  Main.process_audio_file yin name y sr = Returns res ->
  Forall (fun r => within 0 MAX_VALID_HZ (hz r)) res.
Proof.
  intros Hnn Hres.
  destruct (main_process_audio_file_returns yin name y sr) as (res' & Hrun & Hlen & Hdone).
  rewrite Hrun in Hres. injection Hres as <-.
  apply (Forall_by_lookup _ _ _ _ (eq_trans Hlen (eq_sym (eq_trans
           (length_smooth_hz_values _) (length_raw_hz_values yin _ y sr)))) Hdone).
  intros i h Hh. simpl. exact (Forall_lookup_within _ _ _ _ _ (smoothed_within _ y sr Hnn) Hh).
Qed.

Lemma main_hz_fails (name : string) (y : list Sample) (sr : positive)
    (res : list MarkResult) :
  primitive_fails yin ->
  Main.process_audio_file yin name y sr = Returns res ->
  Forall (fun r => hz r = py_round MAX_VALID_HZ 2) res.
Proof.
  intros Hf Hres.
  destruct (main_process_audio_file_returns yin name y sr) as (res' & Hrun & Hlen & Hdone).
  rewrite Hrun in Hres. injection Hres as <-.
  apply (Forall_by_lookup _ _ _ _ (eq_trans Hlen (eq_sym (eq_trans
           (length_smooth_hz_values _) (length_raw_hz_values yin _ y sr)))) Hdone).
  intros i h Hh. simpl. rewrite (smoothed_fails yin _ y sr Hf) in Hh.
  apply lookup_replicate in Hh. destruct Hh as [-> _]. reflexivity.
Qed.

Lemma main2_hz_floor (name : string) (y : list Sample) (sr : positive)
    (res : list MarkResult) :
  Main2.process_audio_file yin name y sr = Returns res ->
  Forall (fun r => Main2.MIN_VALID_HZ <= hz r) res.
Proof.
  intros Hres.
  destruct (main2_process_audio_file_returns yin name y sr) as (res' & Hrun & Hlen & Hdone).
  rewrite Hrun in Hres. injection Hres as <-.
  apply (Forall_by_lookup _ _ _ _
           (eq_trans Hlen (eq_sym (length_smoothed_hz_values yin y sr))) Hdone).
  intros i s _. simpl. apply patched_floor.
Qed.

Lemma prescan_points_below (B : Z) (y : list Sample) (sr : positive)
    (p : Main2.ReferencePoint) (h : Q) :
  primitive_below yin B -> p ∈ prescan_points yin y sr -> Main2.rp_hz p = Some h ->
  h <= inject_Z B.
Proof.
  intros HB Hp Hh. unfold prescan_points in Hp.
  apply list_elem_of_fmap in Hp. destruct Hp as (b & -> & _). simpl in Hh.
  exact (detected_below yin B _ _ _ HB Hh).
Qed.

Lemma main2_hz_below (B : Z) (name : string) (y : list Sample) (sr : positive)
    (res : list MarkResult) :
  (350 <= B)%Z -> primitive_nonneg yin -> primitive_below yin B ->
  Main2.process_audio_file yin name y sr = Returns res ->
  Forall (fun r => hz r <= inject_Z B) res.
Proof.
  intros H350 Hnn HB Hres.
  assert (HQ : MAX_VALID_HZ <= inject_Z B).
  { change MAX_VALID_HZ with (inject_Z 350). rewrite <- Zle_Qle. exact H350. }
  destruct (main2_process_audio_file_returns yin name y sr) as (res' & Hrun & Hlen & Hdone).
  rewrite Hrun in Hres. injection Hres as <-.
  apply (Forall_by_lookup _ _ _ _
           (eq_trans Hlen (eq_sym (length_smoothed_hz_values yin y sr))) Hdone).
  intros i s Hs. simpl. unfold patched.
  destruct (Qlt_le_dec s Main2.MIN_VALID_HZ) as [Hlow | Hok].
  - apply py_round_2_upper.
    destruct (find_nearest_valid_hz_source
                (midpoint_time sr (span Main2.TIME_MARKS (length y) i))
                (prescan_points yin y sr)) as [-> | (p & Hp & Hh & _)].
    + unfold Main2.MIN_VALID_HZ. unfold MAX_VALID_HZ in HQ.
      generalize dependent (inject_Z B). intros q ?. lra.
    + exact (prescan_points_below B y sr p _ HB Hp Hh).
  - destruct (Forall_lookup_within _ _ _ _ _ (smoothed_within _ y sr Hnn) Hs) as [_ Hup].
    generalize dependent (inject_Z B). intros q ?. lra.
Qed.

Lemma main2_hz_fails (name : string) (y : list Sample) (sr : positive)
    (res : list MarkResult) :
  primitive_fails yin ->
  Main2.process_audio_file yin name y sr = Returns res ->
  Forall (fun r => hz r = py_round MAX_VALID_HZ 2) res.
Proof.
  intros Hf Hres.
  destruct (main2_process_audio_file_returns yin name y sr) as (res' & Hrun & Hlen & Hdone).
  rewrite Hrun in Hres. injection Hres as <-.
  apply (Forall_by_lookup _ _ _ _
           (eq_trans Hlen (eq_sym (length_smoothed_hz_values yin y sr))) Hdone).
  intros i s Hs. simpl. unfold smoothed_hz_values in Hs.
  rewrite (smoothed_fails yin _ y sr Hf) in Hs.
  apply lookup_replicate in Hs. destruct Hs as [-> _]. reflexivity.
Qed.

End PipelineBounds.

(** ** Failures of the primitive *)

Section EstimationFailure.

Context {Sample : Type}.
Variable yin : list Sample -> positive -> outcome (list frame).

(** C9.  An exception raised by the primitive, and a frame track with no
    usable frame, are turned by [detect_pitch] into the undetermined result
    for that segment; nothing is raised further.  Whatever the primitive
    does, [robust_pitch_detection] returns a number and both versions of
    [process_audio_file] return one record for each requested mark.  The
    frequencies of the records are bounded: within [0, MAX_VALID_HZ] in
    [main.py] when the primitive yields no negative frequency, at least
    [MIN_VALID_HZ] in [main2.py] and at most any bound [B >= 350] of the
    primitive's frequencies, and equal to the fallback [MAX_VALID_HZ]
    (350.00) on every mark when the primitive fails on every call. *)
Theorem estimation_failure_recovered :
  (forall segment sr e,
     yin segment sr = Raises e -> detect_pitch yin segment sr = Returns None) /\
  (forall segment sr f0,
     yin segment sr = Returns f0 -> drop_nan f0 = [] ->
     detect_pitch yin segment sr = Returns None) /\
  (forall segment sr, exists r, robust_pitch_detection yin segment sr = Returns r) /\
  (forall name y sr, exists res,
     Main.process_audio_file yin name y sr = Returns res /\
     length res = Main.TIME_MARKS /\
     (primitive_nonneg yin -> Forall (fun r => within 0 MAX_VALID_HZ (hz r)) res) /\
     (primitive_fails yin -> Forall (fun r => hz r = py_round MAX_VALID_HZ 2) res)) /\
  (forall name y sr, exists res,
     Main2.process_audio_file yin name y sr = Returns res /\
     length res = Main2.TIME_MARKS /\
     Forall (fun r => Main2.MIN_VALID_HZ <= hz r) res /\
     (forall B : Z, (350 <= B)%Z -> primitive_nonneg yin -> primitive_below yin B ->
        Forall (fun r => hz r <= inject_Z B) res) /\
     (primitive_fails yin -> Forall (fun r => hz r = py_round MAX_VALID_HZ 2) res)).
Proof.
  split; [|split; [|split; [|split]]].
  - intros segment sr e E. unfold detect_pitch. rewrite E. reflexivity.
  - intros segment sr f0 E Hnone. unfold detect_pitch. rewrite E. simpl.
    rewrite Hnone. reflexivity.
  - intros segment sr. eexists. apply robust_pitch_detection_cases.
  - intros name y sr.
    destruct (main_process_audio_file_returns yin name y sr) as (res & Hrun & Hlen & _).
    exists res. split; [exact Hrun|]. split; [exact Hlen|]. split.
    + intros Hnn. exact (main_hz_within yin name y sr res Hnn Hrun).
    + intros Hf. exact (main_hz_fails yin name y sr res Hf Hrun).
  - intros name y sr.
    destruct (main2_process_audio_file_returns yin name y sr) as (res & Hrun & Hlen & _).
    exists res. split; [exact Hrun|]. split; [exact Hlen|].
    split; [exact (main2_hz_floor yin name y sr res Hrun)|]. split.
    + intros B HB Hnn Hb. exact (main2_hz_below yin B name y sr res HB Hnn Hb Hrun).
    + intros Hf. exact (main2_hz_fails yin name y sr res Hf Hrun).
Qed.

End EstimationFailure.

(** ** The claims on concrete inputs *)

Lemma yin_demo_nonneg : primitive_nonneg yin_demo.
Proof.
  intros segment sr f0. unfold yin_demo.
  destruct (length segment) as [|n]; [discriminate|].
  destruct (S n <? 10)%nat; intros [= <-]; simpl; repeat constructor; discriminate.
Qed.

Lemma yin_silent_fails : primitive_fails yin_silent.
Proof. intros segment sr. reflexivity. Qed.

Lemma spans_tile_witness :
  (1 <= 5)%nat /\
  length (spans 5 13) = 5%nat /\
  (exists a, spans 5 13 !! 4%nat = Some (a, 13%nat)) /\
  (exists i a b, spans 5 13 !! i = Some (a, b) /\ (a <= 12 < b)%nat).
Proof.
  assert (H : (1 <= 5)%nat) by (repeat constructor).
  destruct (spans_tile 13 5 H) as (Hlen & _ & _ & _ & Hlast & _ & _ & Hcover & _).
  split; [exact H|]. split; [exact Hlen|]. split; [exact Hlast|].
  apply Hcover. repeat constructor.
Defined.

Lemma estimation_failure_recovered_witness :
  primitive_fails yin_silent /\
  detect_pitch yin_silent wave_demo 16000 = Returns None /\
  exists res,
    Main2.process_audio_file yin_silent "a.wav"%string wave_demo 16000 = Returns res /\
    length res = 20%nat /\
    Forall (fun r => hz r = py_round MAX_VALID_HZ 2) res.
Proof.
  destruct (estimation_failure_recovered yin_silent) as (Hraise & _ & _ & _ & H2).
  split; [exact yin_silent_fails|].
  split; [exact (Hraise wave_demo 16000%positive _ eq_refl)|].
  destruct (H2 "a.wav"%string wave_demo 16000%positive) as (res & Hres & Hlen & _ & _ & Hfail).
  exists res. split; [exact Hres|]. split; [exact Hlen|].
  exact (Hfail yin_silent_fails).
Defined.

(** C2 at a concrete input.  With the primitive [yin_demo] every coarse
    segment of [wave_demo] (30 samples) is estimated at 60 Hz, below
    [MIN_VALID_HZ], and every pre-scan segment (2 samples) at 400 Hz, which
    passes the filter of [find_nearest_valid_hz]; the record of the first
    mark then carries 400.00 Hz, above [MAX_VALID_HZ]. *)
Theorem main2_emits_above_max :
  exists res r,
    Main2.process_audio_file yin_demo "a.wav"%string wave_demo 16000 = Returns res /\
    res !! 0%nat = Some r /\
    hz r == 400 /\
    ~ hz r <= MAX_VALID_HZ.
Proof.
  destruct (Main2.process_audio_file yin_demo "a.wav"%string wave_demo 16000) as [res | e] eqn:E;
    vm_compute in E; [|discriminate E].
  injection E as <-.
  eexists. eexists. split; [reflexivity|]. split; [reflexivity|]. split.
  - reflexivity.
  - vm_compute. intros H. apply H. reflexivity.
Qed.

(** * Further properties of the code *)

(** ** Empty and non-empty spans *)

(** X1.  When the signal has at least as many samples as there are spans,
    every span holds at least one sample; when it has fewer, every span but
    the last is the empty span [(0, 0)] and the last is the whole signal. *)
Theorem span_empty_or_not (N L : nat) :
  (1 <= N)%nat ->
  ((N <= L)%nat ->
     forall i, (i < N)%nat -> (fst (span N L i) < snd (span N L i))%nat) /\
  ((L < N)%nat ->
     (forall i, (i < N - 1)%nat -> span N L i = (0%nat, 0%nat)) /\
     span N L (N - 1) = (0%nat, L)).
Proof.
  intros HN. split.
  - intros HL i Hi.
    pose proof (Nat.Div0.mul_div_le L N) as Hw.
    assert (H1 : (1 <= L / N)%nat) by (apply Nat.div_le_lower_bound; lia).
    unfold span. destruct (Nat.ltb_spec i (N - 1)); simpl; nia.
  - intros HL. pose proof (Nat.div_small L N HL) as Hw. split.
    + intros i Hi. rewrite span_inner by exact Hi. rewrite Hw.
      rewrite !Nat.mul_0_r. reflexivity.
    + rewrite span_last, Hw, Nat.mul_0_r. reflexivity.
Qed.

Lemma span_empty_or_not_witness :
  (1 <= 5)%nat /\ (3 < 5)%nat /\
  span 5 3 2 = (0%nat, 0%nat) /\ span 5 3 4 = (0%nat, 3%nat) /\
  (fst (span 5 13 4) < snd (span 5 13 4))%nat.
Proof.
  assert (H1 : (1 <= 5)%nat) by (repeat constructor).
  assert (H3 : (3 < 5)%nat) by (repeat constructor).
  destruct (span_empty_or_not 5 3 H1) as [_ Hshort].
  destruct (Hshort H3) as [Hempty Hlast].
  destruct (span_empty_or_not 5 13 H1) as [Hlong _].
  split; [exact H1|]. split; [exact H3|]. split; [|split].
  - apply Hempty. repeat constructor.
  - exact Hlast.
  - apply Hlong; repeat constructor.
Defined.

(** ** Rounding is monotone *)

Lemma round_half_even_mono (x y : Q) :
  x <= y -> (round_half_even x <= round_half_even y)%Z.
Proof.
  intros Hxy. pose proof (Qfloor_resp_le _ _ Hxy) as Hf.
  destruct (Z.eq_dec (Qfloor x) (Qfloor y)) as [E | N].
  - unfold round_half_even. rewrite E.
    destruct (Qcompare_spec (x - inject_Z (Qfloor y)) (1 # 2)) as [Hx | Hx | Hx];
      destruct (Qcompare_spec (y - inject_Z (Qfloor y)) (1 # 2)) as [Hy | Hy | Hy];
      try destruct (Z.even (Qfloor y)); try lia; exfalso; q_linear.
  - destruct (round_half_even_floor x) as [-> | ->];
      destruct (round_half_even_floor y) as [-> | ->]; lia.
Qed.

Lemma py_round_mono (x y : Q) (n : nat) : x <= y -> py_round x n <= py_round y n.
Proof.
  intros Hxy. unfold py_round. destruct n as [|n].
  - rewrite <- Zle_Qle. apply round_half_even_mono. exact Hxy.
  - set (p := (10 ^ Pos.of_nat (S n))%positive).
    assert (Hm : (round_half_even (x * inject_Z (Z.pos p))
                  <= round_half_even (y * inject_Z (Z.pos p)))%Z).
    { apply round_half_even_mono. apply Qmult_le_compat_r; [exact Hxy|].
      change 0 with (inject_Z 0). rewrite <- Zle_Qle. lia. }
    unfold Qle. simpl. nia.
Qed.

Lemma py_round_nonneg (x : Q) (n : nat) : 0 <= x -> 0 <= py_round x n.
Proof.
  intros Hx. unfold py_round. destruct n as [|n].
  - change 0 with (inject_Z 0). rewrite <- Zle_Qle.
    apply round_half_even_lower. exact Hx.
  - set (p := (10 ^ Pos.of_nat (S n))%positive).
    assert (Hm : (0 <= round_half_even (x * inject_Z (Z.pos p)))%Z).
    { apply round_half_even_lower. change (inject_Z 0) with 0.
      apply Qmult_le_0_compat; [exact Hx|].
      change 0 with (inject_Z 0). rewrite <- Zle_Qle. lia. }
    unfold Qle. simpl. lia.
Qed.

(** ** Times along the marks *)

Lemma span_mono (N L i j : nat) :
  (i <= j)%nat -> (j < N)%nat ->
  (fst (span N L i) <= fst (span N L j))%nat /\
  (snd (span N L i) <= snd (span N L j))%nat.
Proof.
  intros Hij Hj. pose proof (Nat.Div0.mul_div_le L N) as Hw.
  unfold span. destruct (Nat.ltb_spec i (N - 1)); destruct (Nat.ltb_spec j (N - 1));
    simpl; split; nia.
Qed.

Lemma span_within (N L i : nat) :
  (i < N)%nat -> (snd (span N L i) <= L)%nat.
Proof.
  intros Hi. pose proof (Nat.Div0.mul_div_le L N) as Hw.
  unfold span. destruct (Nat.ltb_spec i (N - 1)); simpl; nia.
Qed.

Lemma Q_of_nat_le (a b : nat) : (a <= b)%nat -> Q_of_nat a <= Q_of_nat b.
Proof. intros H. unfold Q_of_nat. rewrite <- Zle_Qle. lia. Qed.

Lemma Q_of_nat_nonneg (a : nat) : 0 <= Q_of_nat a.
Proof. apply (Q_of_nat_le 0 a). lia. Qed.

Lemma Qdiv_le_compat (x y c : Q) : 0 < c -> x <= y -> x / c <= y / c.
Proof.
  intros Hc Hxy. unfold Qdiv. apply Qmult_le_compat_r; [exact Hxy|].
  apply Qinv_le_0_compat. lra.
Qed.

Lemma midpoint_time_mono (sr : positive) (b b' : nat * nat) :
  (fst b <= fst b')%nat -> (snd b <= snd b')%nat ->
  midpoint_time sr b <= midpoint_time sr b'.
Proof.
  intros H1 H2. unfold midpoint_time, start_time, end_time.
  apply Qdiv_le_compat; [reflexivity|].
  pose proof (Qdiv_le_compat _ _ _ (Q_of_pos_pos sr) (Q_of_nat_le _ _ H1)).
  pose proof (Qdiv_le_compat _ _ _ (Q_of_pos_pos sr) (Q_of_nat_le _ _ H2)).
  lra.
Qed.

Lemma midpoint_time_after_start (sr : positive) (b : nat * nat) :
  (fst b <= snd b)%nat -> start_time sr b <= midpoint_time sr b.
Proof.
  intros H. unfold midpoint_time.
  assert (Hse : start_time sr b <= end_time sr b).
  { unfold start_time, end_time.
    exact (Qdiv_le_compat _ _ _ (Q_of_pos_pos sr) (Q_of_nat_le _ _ H)). }
  apply Qle_shift_div_l; [reflexivity | lra].
Qed.

Lemma main_midpoint_mono (sr : positive) (b b' : nat * nat) :
  (fst b <= fst b')%nat -> (snd b <= snd b')%nat ->
  (Q_of_nat (fst b + snd b) / 2) / Q_of_pos sr
  <= (Q_of_nat (fst b' + snd b') / 2) / Q_of_pos sr.
Proof.
  intros H1 H2. apply Qdiv_le_compat; [apply Q_of_pos_pos|].
  apply Qdiv_le_compat; [reflexivity|]. apply Q_of_nat_le. lia.
Qed.

Lemma main_midpoint_nonneg (sr : positive) (b : nat * nat) :
  0 <= (Q_of_nat (fst b + snd b) / 2) / Q_of_pos sr.
Proof.
  apply Qle_shift_div_l; [apply Q_of_pos_pos|].
  apply Qle_shift_div_l; [reflexivity|].
  pose proof (Q_of_nat_nonneg (fst b + snd b)). lra.
Qed.

Section TimeAxis.

Context {Sample : Type}.
Variable yin : list Sample -> positive -> outcome (list frame).

Lemma main_record_at (name : string) (y : list Sample) (sr : positive)
    (res : list MarkResult) (i : nat) (r : MarkResult) :
  Main.process_audio_file yin name y sr = Returns res ->
  res !! i = Some r ->
  exists h,
    smooth_hz_values (raw_hz_values yin Main.TIME_MARKS y sr) !! i = Some h /\
    r = main_result name sr i (span Main.TIME_MARKS (length y) i) h.
Proof.
  intros Hres Hr.
  destruct (main_process_audio_file_returns yin name y sr) as (res' & Hrun & Hlen & Hdone).
  rewrite Hrun in Hres. injection Hres as <-.
  destruct (lookup_lt_is_Some_2
              (smooth_hz_values (raw_hz_values yin Main.TIME_MARKS y sr)) i) as [h Hh].
  { rewrite length_smooth_hz_values, length_raw_hz_values, <- Hlen.
    eapply lookup_lt_Some. exact Hr. }
  exists h. split; [exact Hh|]. rewrite (Hdone i h Hh) in Hr. congruence.
Qed.

Lemma main2_record_at (name : string) (y : list Sample) (sr : positive)
    (res : list MarkResult) (i : nat) (r : MarkResult) :
  Main2.process_audio_file yin name y sr = Returns res ->
  res !! i = Some r ->
  exists s,
    smoothed_hz_values yin y sr !! i = Some s /\
    r = mark_result name (prescan_points yin y sr) sr (reset_anchor sr (length y)) i
          (span Main2.TIME_MARKS (length y) i) s.
Proof.
  intros Hres Hr.
  destruct (main2_process_audio_file_returns yin name y sr) as (res' & Hrun & Hlen & Hdone).
  rewrite Hrun in Hres. injection Hres as <-.
  destruct (lookup_lt_is_Some_2 (smoothed_hz_values yin y sr) i) as [s Hs].
  { rewrite length_smoothed_hz_values, <- Hlen. eapply lookup_lt_Some. exact Hr. }
  exists s. split; [exact Hs|]. rewrite (Hdone i s Hs) in Hr. congruence.
Qed.

Lemma main_result_time (name : string) (sr : positive) (i : nat) (b : nat * nat) (h : Q) :
  relative_time_sec (main_result name sr i b h) =
  py_round ((Q_of_nat (fst b + snd b) / 2) / Q_of_pos sr) 3.
Proof. reflexivity. Qed.

Lemma mark_result_time (name : string) (ps : list Main2.ReferencePoint) (sr : positive)
    (a : Q) (i : nat) (b : nat * nat) (s : Q) :
  relative_time_sec (mark_result name ps sr a i b s) =
  py_round (if (i <? 10)%nat then midpoint_time sr b else midpoint_time sr b - a) 3.
Proof. reflexivity. Qed.

(** X3.  In the output of [main.process_audio_file] the relative times are
    non-negative and do not decrease from one mark to the next. *)
Theorem main_relative_time_monotone (name : string) (y : list Sample) (sr : positive) :
  exists res,
    Main.process_audio_file yin name y sr = Returns res /\
    Forall (fun r => 0 <= relative_time_sec r) res /\
    forall i j r r', (i <= j)%nat -> res !! i = Some r -> res !! j = Some r' ->
      relative_time_sec r <= relative_time_sec r'.
Proof.
  destruct (main_process_audio_file_returns yin name y sr) as (res & Hrun & Hlen & _).
  exists res. split; [exact Hrun|]. split.
  - apply Forall_lookup. intros i r Hr.
    destruct (main_record_at name y sr res i r Hrun Hr) as (h & _ & ->). rewrite ?main_result_time.
    apply py_round_nonneg, main_midpoint_nonneg.
  - intros i j r r' Hij Hr Hr'.
    pose proof (lookup_lt_Some _ _ _ Hr') as Hj. rewrite Hlen in Hj.
    destruct (main_record_at name y sr res i r Hrun Hr) as (h & _ & ->).
    destruct (main_record_at name y sr res j r' Hrun Hr') as (h' & _ & ->). rewrite ?main_result_time.
    destruct (span_mono Main.TIME_MARKS (length y) i j Hij Hj) as [H1 H2].
    apply py_round_mono, main_midpoint_mono; assumption.
Qed.

(** X4.  In the output of [main2.process_audio_file] the relative times are
    non-negative; they do not decrease along the first ten marks, nor along
    the marks from index 10 on, whose times restart from the reset anchor. *)
Theorem main2_relative_time_monotone (name : string) (y : list Sample) (sr : positive) :
  exists res,
    Main2.process_audio_file yin name y sr = Returns res /\
    Forall (fun r => 0 <= relative_time_sec r) res /\
    (forall i j r r', (i <= j)%nat -> (j < 10)%nat ->
       res !! i = Some r -> res !! j = Some r' ->
       relative_time_sec r <= relative_time_sec r') /\
    (forall i j r r', (10 <= i)%nat -> (i <= j)%nat ->
       res !! i = Some r -> res !! j = Some r' ->
       relative_time_sec r <= relative_time_sec r').
Proof.
  destruct (main2_process_audio_file_returns yin name y sr) as (res & Hrun & Hlen & _).
  assert (Hmid0 : forall i, (i < Main2.TIME_MARKS)%nat ->
            0 <= midpoint_time sr (span Main2.TIME_MARKS (length y) i)).
  { intros i Hi.
    pose proof (midpoint_time_after_start sr _ (span_ordered _ (length y) i Hi)) as Hs.
    assert (H0 : 0 <= start_time sr (span Main2.TIME_MARKS (length y) i)).
    { unfold start_time. apply Qle_shift_div_l; [apply Q_of_pos_pos|].
      pose proof (Q_of_nat_nonneg (fst (span Main2.TIME_MARKS (length y) i))). lra. }
    lra. }
  assert (Hlate : forall i, (10 <= i)%nat -> (i < Main2.TIME_MARKS)%nat ->
            reset_anchor sr (length y)
            <= midpoint_time sr (span Main2.TIME_MARKS (length y) i)).
  { intros i H10 Hi.
    pose proof (midpoint_time_after_start sr _ (span_ordered _ (length y) i Hi)) as Hs.
    assert (Ha : reset_anchor sr (length y)
                 <= start_time sr (span Main2.TIME_MARKS (length y) i)).
    { unfold reset_anchor, end_time, start_time.
      apply Qdiv_le_compat; [apply Q_of_pos_pos|]. apply Q_of_nat_le.
      rewrite (span_inner Main2.TIME_MARKS (length y) 9)
        by (unfold Main2.TIME_MARKS; repeat constructor).
      unfold span. simpl fst. simpl snd. nia. }
    lra. }
  exists res. split; [exact Hrun|]. split; [|split].
  - apply Forall_lookup. intros i r Hr.
    pose proof (lookup_lt_Some _ _ _ Hr) as Hi. rewrite Hlen in Hi.
    destruct (main2_record_at name y sr res i r Hrun Hr) as (s & _ & ->). rewrite ?mark_result_time.
    apply py_round_nonneg. destruct (Nat.ltb_spec i 10).
    + apply Hmid0. exact Hi.
    + specialize (Hlate i ltac:(lia) Hi). lra.
  - intros i j r r' Hij Hj Hr Hr'.
    destruct (main2_record_at name y sr res i r Hrun Hr) as (s & _ & ->).
    destruct (main2_record_at name y sr res j r' Hrun Hr') as (s' & _ & ->). rewrite ?mark_result_time.
    destruct (Nat.ltb_spec i 10); [|lia]. destruct (Nat.ltb_spec j 10); [|lia].
    destruct (span_mono Main2.TIME_MARKS (length y) i j Hij
                ltac:(unfold Main2.TIME_MARKS; lia)) as [H1 H2].
    apply py_round_mono, midpoint_time_mono; assumption.
  - intros i j r r' H10 Hij Hr Hr'.
    pose proof (lookup_lt_Some _ _ _ Hr') as Hj. rewrite Hlen in Hj.
    destruct (main2_record_at name y sr res i r Hrun Hr) as (s & _ & ->).
    destruct (main2_record_at name y sr res j r' Hrun Hr') as (s' & _ & ->). rewrite ?mark_result_time.
    destruct (Nat.ltb_spec i 10); [lia|]. destruct (Nat.ltb_spec j 10); [lia|].
    destruct (span_mono Main2.TIME_MARKS (length y) i j Hij Hj) as [H1 H2].
    apply py_round_mono.
    pose proof (midpoint_time_mono sr _ _ H1 H2). lra.
Qed.

End TimeAxis.

(** ** More on the estimator *)

Section EstimatorEdges.

Context {Sample : Type}.
Variable yin : list Sample -> positive -> outcome (list frame).



Lemma sub_window_spans_short (L : nat) :
  (L < SUB_WINDOWS)%nat ->
  spans SUB_WINDOWS L =
  [(0, 0); (0, 0); (0, 0); (0, 0); (0, L)]%nat.
Proof.
  intros H. unfold spans, span. rewrite (Nat.div_small _ _ H). reflexivity.
Qed.

(** X6.  On a segment of fewer than [SUB_WINDOWS] samples the sub-windows are
    four empty segments and the segment itself.  So if the primitive gives
    nothing on the empty segment, the fallback cannot improve on the
    whole-segment result: the estimator returns that result when it is
    concrete and below [MAX_VALID_HZ], and [MAX_VALID_HZ] otherwise. *)
Theorem robust_pitch_detection_short_segment (segment : list Sample) (sr : positive) :
  (length segment < SUB_WINDOWS)%nat ->
  detected yin [] sr = None ->
  robust_pitch_detection yin segment sr =
  Returns match accepted (detected yin segment sr) with
          | Some h => h
          | None => MAX_VALID_HZ
          end.
Proof.
  intros Hshort Hempty. rewrite robust_pitch_detection_cases. unfold robust_value.
  destruct (accepted (detected yin segment sr)) as [h|] eqn:Ea; [reflexivity|].
  assert (Hc : collected yin segment sr = []).
  { unfold collected. rewrite (sub_window_spans_short _ Hshort).
    pose (f := fun b : nat * nat => accepted (detected yin (slice segment (fst b) (snd b)) sr)).
    assert (Hnil : f (0%nat, 0%nat) = None).
    { unfold f. cbn [fst snd]. change (slice segment 0 0) with (@nil Sample).
      rewrite Hempty. reflexivity. }
    assert (Hall : f (0%nat, length segment) = None).
    { unfold f. cbn [fst snd]. unfold slice. rewrite Nat.sub_0_r. cbn [drop].
      rewrite firstn_all. exact Ea. }
    fold f. clearbody f. cbn [omap list_omap]. rewrite Hnil, Hall. reflexivity. }
  rewrite Hc. reflexivity.
Qed.

(** X7.  When the primitive returns at least one frame that is not NaN,
    [detect_pitch] returns a concrete value, and that value lies within any
    range that holds all the frames that are not NaN (the NaN frames play no
    part). *)
Theorem detect_pitch_within_frames (lo hi : Q) (segment : list Sample) (sr : positive)
    (f0 : list frame) :
  yin segment sr = Returns f0 ->
  drop_nan f0 <> [] ->
  Forall (within lo hi) (drop_nan f0) ->
  exists h, detect_pitch yin segment sr = Returns (Some h) /\ within lo hi h.
Proof.
  intros E Hne Hall. exists (np_median (drop_nan f0)). split.
  - rewrite detect_pitch_returns. unfold detected. rewrite E.
    destruct (drop_nan f0); [congruence | reflexivity].
  - apply np_median_within; assumption.
Qed.

(** X8.  [prescan_300_marks] never raises and returns 300 reference points,
    one per span of the fine grid and in that order: the time of a point is
    the midpoint of its span in seconds and its frequency is what
    [detect_pitch] returns on the span, possibly undetermined.  The times lie
    between 0 and the duration of the signal and do not decrease along the
    list. *)
Theorem prescan_300_marks_points (y : list Sample) (sr : positive) :
  exists ps,
    Main2.prescan_300_marks yin y sr = Returns ps /\
    length ps = 300%nat /\
    (forall i p, ps !! i = Some p ->
       Main2.rp_time p =
         (Q_of_nat (fst (span 300 (length y) i) + snd (span 300 (length y) i)) / 2)
         / Q_of_pos sr /\
       detect_pitch yin (slice y (fst (span 300 (length y) i))
                                 (snd (span 300 (length y) i))) sr
       = Returns (Main2.rp_hz p)) /\
    Forall (fun p => 0 <= Main2.rp_time p /\
                     Main2.rp_time p <= Q_of_nat (length y) / Q_of_pos sr) ps /\
    (forall i j p q, (i <= j)%nat -> ps !! i = Some p -> ps !! j = Some q ->
       Main2.rp_time p <= Main2.rp_time q).
Proof.
  exists (prescan_points yin y sr).
  assert (Hat : forall i p, prescan_points yin y sr !! i = Some p ->
            (i < 300)%nat /\
            p = {| Main2.rp_time :=
                     (Q_of_nat (fst (span 300 (length y) i) + snd (span 300 (length y) i)) / 2)
                     / Q_of_pos sr;
                   Main2.rp_hz :=
                     detected yin (slice y (fst (span 300 (length y) i))
                                           (snd (span 300 (length y) i))) sr |}).
  { intros i p Hp. unfold prescan_points in Hp. rewrite list_lookup_fmap in Hp.
    destruct (spans Main2.PRE_SCAN_MARKS (length y) !! i) as [b|] eqn:Hb; [|discriminate].
    apply lookup_spans_Some in Hb. destruct Hb as [Hi ->].
    injection Hp as <-. split; [exact Hi | reflexivity]. }
  split; [apply prescan_300_marks_returns|].
  split; [unfold prescan_points; rewrite length_fmap; apply length_spans|].
  split; [|split].
  - intros i p Hp. destruct (Hat i p Hp) as [_ ->]. simpl.
    split; [reflexivity | apply detect_pitch_returns].
  - apply Forall_lookup. intros i p Hp. destruct (Hat i p Hp) as [Hi ->].
    cbn [Main2.rp_time]. split; [apply main_midpoint_nonneg|].
    apply Qdiv_le_compat; [apply Q_of_pos_pos|].
    apply Qle_shift_div_r; [reflexivity|].
    pose proof (span_ordered 300 (length y) i Hi) as Hab.
    pose proof (span_within 300 (length y) i Hi) as HbL.
    pose proof (Q_of_nat_le _ _ (Nat.add_le_mono _ _ _ _ (Nat.le_trans _ _ _ Hab HbL) HbL)) as Hq.
    assert (Hd : Q_of_nat (length y + length y) == Q_of_nat (length y) * 2).
    { unfold Q_of_nat. rewrite Nat2Z.inj_add, inject_Z_plus. ring. }
    rewrite <- Hd. exact Hq.
  - intros i j p q Hij Hp Hq.
    destruct (Hat i p Hp) as [_ ->]. destruct (Hat j q Hq) as [Hj ->]. cbn [Main2.rp_time].
    destruct (span_mono 300 (length y) i j Hij Hj) as [H1 H2].
    apply main_midpoint_mono; assumption.
Qed.

End EstimatorEdges.

Lemma robust_pitch_detection_short_segment_witness :
  (length (replicate 3 tt) < SUB_WINDOWS)%nat /\
  detected yin_demo [] 16000 = None /\
  robust_pitch_detection yin_demo (replicate 3 tt) 16000 = Returns MAX_VALID_HZ.
Proof.
  assert (H : (length (replicate 3 tt) < SUB_WINDOWS)%nat) by (repeat constructor).
  split; [exact H|]. split; [reflexivity|].
  exact (robust_pitch_detection_short_segment yin_demo (replicate 3 tt) 16000 H eq_refl).
Defined.

Lemma detect_pitch_within_frames_witness :
  yin_demo (replicate 30 tt) 16000 = Returns [NaN; Freq 60] /\
  exists h, detect_pitch yin_demo (replicate 30 tt) 16000 = Returns (Some h) /\
            within 50 500 h.
Proof.
  split; [reflexivity|].
  apply (detect_pitch_within_frames yin_demo 50 500 (replicate 30 tt) 16000 [NaN; Freq 60]).
  - reflexivity.
  - discriminate.
  - repeat constructor; discriminate.
Defined.

(** ** Range and format of the output *)

Lemma Qmake_100 (a : Z) : a # 100 == inject_Z a * (1 # 100).
Proof. unfold Qeq. simpl. lia. Qed.

Lemma py_round_2_grid_lower (x : Q) (a : Z) : a # 100 <= x -> a # 100 <= py_round x 2.
Proof.
  intros H. rewrite py_round_2_unfold.
  assert (Ha : (a <= round_half_even (x * 100))%Z).
  { apply round_half_even_lower. rewrite Qmake_100 in H. q_linear. }
  unfold Qle. simpl. lia.
Qed.

Lemma py_round_2_grid_upper (x : Q) (b : Z) : x <= b # 100 -> py_round x 2 <= b # 100.
Proof.
  intros H. rewrite py_round_2_unfold.
  assert (Hb : (round_half_even (x * 100) <= b)%Z).
  { apply round_half_even_upper. rewrite Qmake_100 in H. q_linear. }
  unfold Qle. simpl. lia.
Qed.

(** X9.  Smoothing keeps the values within any range whose ends have at most
    two decimals and that holds every input, and every value it returns has
    at most two decimals. *)
Theorem smooth_hz_values_grid_range (a b : Z) (l : list Q) :
  Forall (within (a # 100) (b # 100)) l ->
  Forall (fun x => within (a # 100) (b # 100) x /\ exists z : Z, x = z # 100)
         (smooth_hz_values l).
Proof.
  intros Hall. apply Forall_lookup. intros i x Hx.
  assert (Hi : (i < length l)%nat).
  { apply lookup_lt_Some in Hx. rewrite length_smooth_hz_values in Hx. exact Hx. }
  rewrite lookup_smooth_hz_values in Hx by assumption. injection Hx as <-.
  destruct (np_mean_within _ _ _ (window_nonempty l i Hi) (window_Forall _ l i Hall))
    as [H1 H2].
  unfold smooth_at. split.
  - split; [apply py_round_2_grid_lower | apply py_round_2_grid_upper]; assumption.
  - eexists. apply py_round_2_unfold.
Qed.

Lemma smooth_hz_values_grid_range_witness :
  Forall (within (10000 # 100) (40000 # 100)) [100; 200; 400; 100] /\
  Forall (fun x => within (10000 # 100) (40000 # 100) x /\ exists z : Z, x = z # 100)
         (smooth_hz_values [100; 200; 400; 100]).
Proof.
  assert (H : Forall (within (10000 # 100) (40000 # 100)) [100; 200; 400; 100]).
  { repeat constructor; discriminate. }
  split; [exact H|]. exact (smooth_hz_values_grid_range 10000 40000 _ H).
Defined.

Section OutputFormat.

Context {Sample : Type}.
Variable yin : list Sample -> positive -> outcome (list frame).

Lemma smoothed_on_grid (l : list Q) (i : nat) (x : Q) :
  smooth_hz_values l !! i = Some x -> exists z : Z, x = z # 100.
Proof.
  intros Hx. assert (Hi : (i < length l)%nat).
  { apply lookup_lt_Some in Hx. rewrite length_smooth_hz_values in Hx. exact Hx. }
  rewrite lookup_smooth_hz_values in Hx by assumption. injection Hx as <-.
  eexists. apply py_round_2_unfold.
Qed.

(** X10.  Every record that either [process_audio_file] emits carries a
    frequency with at most two decimals and a relative time with at most
    three, as the rows of the spreadsheet require; in [main2.py] this holds
    for the replaced frequencies as well. *)
Theorem emitted_decimals (name : string) (y : list Sample) (sr : positive) :
  (exists res,
     Main.process_audio_file yin name y sr = Returns res /\
     Forall (fun r => (exists z : Z, hz r = z # 100) /\
                      (exists z : Z, relative_time_sec r = z # 1000)) res) /\
  (exists res,
     Main2.process_audio_file yin name y sr = Returns res /\
     Forall (fun r => (exists z : Z, hz r = z # 100) /\
                      (exists z : Z, relative_time_sec r = z # 1000)) res).
Proof.
  split.
  - destruct (main_process_audio_file_returns yin name y sr) as (res & Hrun & _ & _).
    exists res. split; [exact Hrun|]. apply Forall_lookup. intros i r Hr.
    destruct (main_record_at yin name y sr res i r Hrun Hr) as (h & Hh & ->). split.
    + exact (smoothed_on_grid _ _ _ Hh).
    + eexists. rewrite main_result_time. apply py_round_3_unfold.
  - destruct (main2_process_audio_file_returns yin name y sr) as (res & Hrun & _ & _).
    exists res. split; [exact Hrun|]. apply Forall_lookup. intros i r Hr.
    destruct (main2_record_at yin name y sr res i r Hrun Hr) as (s & Hs & ->). split.
    + change (hz (mark_result name (prescan_points yin y sr) sr
                    (reset_anchor sr (length y)) i (span Main2.TIME_MARKS (length y) i) s))
        with (patched (prescan_points yin y sr) sr (span Main2.TIME_MARKS (length y) i) s).
      unfold patched. destruct (Qlt_le_dec s Main2.MIN_VALID_HZ).
      * eexists. apply py_round_2_unfold.
      * exact (smoothed_on_grid _ _ _ Hs).
    + eexists. rewrite mark_result_time. apply py_round_3_unfold.
Qed.

End OutputFormat.

(** ** Which files are processed *)

Lemma endswith_spec (s suffix : string) :
  endswith s suffix = true <-> exists pre, s = (pre ++ suffix)%string.
Proof.
  induction s as [|c s IH]; cbn [endswith].
  - destruct (String.eqb_spec EmptyString suffix) as [<- | Hne].
    + split; [intros _; exists EmptyString; reflexivity | reflexivity].
    + split; [intros H; discriminate H|].
      intros [pre E]. destruct pre; simpl in E; congruence.
  - destruct (String.eqb_spec (String c s) suffix) as [<- | Hne].
    + split; [intros _; exists EmptyString; reflexivity | reflexivity].
    + rewrite IH. split.
      * intros [pre ->]. exists (String c pre). reflexivity.
      * intros [pre E]. destruct pre as [|d pre]; simpl in E; [congruence|].
        injection E as _ ->. exists pre. reflexivity.
Qed.

Lemma lower_app (a b : string) : lower (a ++ b) = (lower a ++ lower b)%string.
Proof. induction a as [|c a IH]; simpl; [reflexivity | rewrite IH; reflexivity]. Qed.

Lemma lower_split (a b : string) :
  forall f, lower f = (a ++ b)%string ->
  exists f1 f2, f = (f1 ++ f2)%string /\ lower f1 = a /\ lower f2 = b.
Proof.
  induction a as [|c a IH]; intros f E.
  - exists EmptyString, f. auto.
  - destruct f as [|d f]; simpl in E; [discriminate|].
    injection E as Hc E. destruct (IH f E) as (f1 & f2 & -> & H1 & H2).
    exists (String d f1), f2. simpl. rewrite Hc, H1. auto.
Qed.

Lemma lower_char_dot (c : ascii) : lower_char c = "."%char -> c = "."%char.
Proof.
  destruct c as [[] [] [] [] [] [] [] []]; vm_compute; intros H;
    try discriminate H; reflexivity.
Qed.

Lemma lower_char_w (c : ascii) : lower_char c = "w"%char -> c = "w"%char \/ c = "W"%char.
Proof.
  destruct c as [[] [] [] [] [] [] [] []]; vm_compute; intros H;
    try discriminate H; auto.
Qed.

Lemma lower_char_a (c : ascii) : lower_char c = "a"%char -> c = "a"%char \/ c = "A"%char.
Proof.
  destruct c as [[] [] [] [] [] [] [] []]; vm_compute; intros H;
    try discriminate H; auto.
Qed.

Lemma lower_char_v (c : ascii) : lower_char c = "v"%char -> c = "v"%char \/ c = "V"%char.
Proof.
  destruct c as [[] [] [] [] [] [] [] []]; vm_compute; intros H;
    try discriminate H; auto.
Qed.

(** X12.  A directory entry is taken as an input of [main] exactly when it
    ends with a dot followed by the letters w, a, v, each in either case;
    what comes before (possibly nothing) does not matter. *)
Theorem is_wav_spec (f : string) :
  is_wav f = true <->
  exists (pre : string) (c1 c2 c3 : ascii),
    f = (pre ++ String "." (String c1 (String c2 (String c3 EmptyString))))%string /\
    (c1 = "w"%char \/ c1 = "W"%char) /\
    (c2 = "a"%char \/ c2 = "A"%char) /\
    (c3 = "v"%char \/ c3 = "V"%char).
Proof.
  unfold is_wav. rewrite endswith_spec. split.
  - intros [pre E]. destruct (lower_split pre ".wav" f E) as (f1 & f2 & -> & _ & H2).
    destruct f2 as [|c0 [|c1 [|c2 [|c3 [|c4 f2]]]]]; simpl in H2; try discriminate H2.
    injection H2 as H0 H1 H2 H3.
    apply lower_char_dot in H0. subst c0.
    exists f1, c1, c2, c3. split; [reflexivity|].
    split; [apply lower_char_w; exact H1|].
    split; [apply lower_char_a; exact H2 | apply lower_char_v; exact H3].
  - intros (pre & c1 & c2 & c3 & -> & H1 & H2 & H3).
    exists (lower pre). rewrite lower_app. f_equal.
    destruct H1 as [-> | ->]; destruct H2 as [-> | ->]; destruct H3 as [-> | ->];
      reflexivity.
Qed.

(** ** The batch *)

Lemma for_in_collect (process : string -> outcome (list MarkResult))
    (files : list string) (parts : list (list MarkResult)) :
  Forall2 (fun f res => process f = Returns res) files parts ->
  forall acc,
    for_in files acc
      (fun file_name all_results =>
         results <- process file_name ;; Returns (all_results ++ results))
    = Returns (acc ++ concat parts).
Proof.
  induction 1 as [|f res files parts Hf _ IH]; intros acc; simpl.
  - rewrite app_nil_r. reflexivity.
  - rewrite Hf. simpl. rewrite IH, app_assoc. reflexivity.
Qed.

Lemma for_in_abort (process : string -> outcome (list MarkResult))
    (pre post : list string) (f : string) (e : exn) (parts : list (list MarkResult)) :
  Forall2 (fun f res => process f = Returns res) pre parts ->
  process f = Raises e ->
  forall acc,
    for_in (pre ++ f :: post) acc
      (fun file_name all_results =>
         results <- process file_name ;; Returns (all_results ++ results))
    = Raises e.
Proof.
  intros Hpre Hf. induction Hpre as [|g res pre parts Hg _ IH]; intros acc; simpl.
  - rewrite Hf. reflexivity.
  - rewrite Hg. simpl. apply IH.
Qed.

Lemma Forall_exists_Forall2 {A B : Type} (R : A -> B -> Prop) (l : list A) :
  Forall (fun a => exists b, R a b) l -> exists l', Forall2 R l l'.
Proof.
  induction 1 as [|a l [b Hb] _ [l' IH]].
  - exists []. constructor.
  - exists (b :: l'). constructor; assumption.
Qed.

Lemma length_concat_uniform {A : Type} (n : nat) (parts : list (list A)) :
  Forall (fun p => length p = n) parts -> length (concat parts) = (n * length parts)%nat.
Proof.
  induction 1 as [|p parts Hp _ IH]; simpl; [lia|].
  rewrite length_app, Hp, IH. lia.
Qed.

Section BatchFacts.

Context {Sample : Type}.
Variable yin : list Sample -> positive -> outcome (list frame).
Variable load : string -> outcome (list Sample * positive).
Variable remove_silence : list Sample -> outcome (list Sample).

(** The file can be read and trimmed. *)
Definition readable (f : string) : Prop :=
  exists y sr y', load f = Returns (y, sr) /\ remove_silence y = Returns y'.

Lemma main_process_file_returns (f : string) :
  readable f ->
  exists res,
    main_process_file yin load remove_silence f = Returns res /\
    length res = 10%nat /\ Forall (fun r => sounding r = f) res.
Proof.
  intros (y & sr & y' & Hl & Ht).
  destruct (main_process_audio_file_returns yin f y' sr) as (res & Hrun & Hlen & _).
  exists res. split; [|split; [exact Hlen|]].
  - unfold main_process_file. rewrite Hl. simpl. rewrite Ht. exact Hrun.
  - apply Forall_lookup. intros i r Hr.
    destruct (main_record_at yin f y' sr res i r Hrun Hr) as (h & _ & ->). reflexivity.
Qed.

Lemma main2_process_file_returns (f : string) :
  readable f ->
  exists res,
    main2_process_file yin load remove_silence f = Returns res /\
    length res = 20%nat /\ Forall (fun r => sounding r = f) res.
Proof.
  intros (y & sr & y' & Hl & Ht).
  destruct (main2_process_audio_file_returns yin f y' sr) as (res & Hrun & Hlen & _).
  exists res. split; [|split; [exact Hlen|]].
  - unfold main2_process_file. rewrite Hl. simpl. rewrite Ht. exact Hrun.
  - apply Forall_lookup. intros i r Hr.
    destruct (main2_record_at yin f y' sr res i r Hrun Hr) as (s & _ & ->). reflexivity.
Qed.

Lemma run_main_rows (process : string -> outcome (list MarkResult)) (n : nat)
    (listing : list string) :
  Forall (fun f => exists res, process f = Returns res /\ length res = n /\
                               Forall (fun r => sounding r = f) res)
         (List.filter is_wav listing) ->
  exists parts,
    run_main process true listing = Returns (Some (concat parts)) /\
    Forall2 (fun f res => process f = Returns res /\ length res = n /\
                          Forall (fun r => sounding r = f) res)
            (List.filter is_wav listing) parts /\
    length (concat parts) = (n * length (List.filter is_wav listing))%nat.
Proof.
  intros Hall. destruct (Forall_exists_Forall2 _ _ Hall) as [parts Hparts].
  exists parts. split; [|split; [exact Hparts|]].
  - unfold run_main. simpl negb. cbv iota.
    rewrite (for_in_collect process _ parts).
    + reflexivity.
    + eapply Forall2_impl; [exact Hparts|]. intros f res (H & _). exact H.
  - rewrite (length_concat_uniform n).
    + rewrite <- (Forall2_length _ _ _ Hparts). reflexivity.
    + eapply Forall2_Forall_r; [exact Hparts|].
      apply Forall_true. intros f res (_ & H & _). exact H.
Qed.

(** X13.  [main.main]: without the data folder nothing is processed and
    nothing is written.  With it, if every listed [.wav] file can be read and
    trimmed, the table written is the concatenation, in listing order, of the
    ten records of each [.wav] file, each record naming its file; so it has
    ten rows per [.wav] file and the other entries of the folder leave no
    row. *)
Theorem main_main_rows (listing : list string) :
  main_main yin load remove_silence false listing = Returns None /\
  (Forall readable (List.filter is_wav listing) ->
   exists parts,
     main_main yin load remove_silence true listing = Returns (Some (concat parts)) /\
     Forall2 (fun f res =>
                main_process_file yin load remove_silence f = Returns res /\
                length res = 10%nat /\ Forall (fun r => sounding r = f) res)
             (List.filter is_wav listing) parts /\
     length (concat parts) = (10 * length (List.filter is_wav listing))%nat).
Proof.
  split; [reflexivity|]. intros Hall. apply run_main_rows.
  eapply Forall_impl; [exact Hall|]. intros f Hf. apply main_process_file_returns, Hf.
Qed.

(** X14.  [main2.main]: as [main.main], with twenty records per [.wav]
    file. *)
Theorem main2_main_rows (listing : list string) :
  main2_main yin load remove_silence false listing = Returns None /\
  (Forall readable (List.filter is_wav listing) ->
   exists parts,
     main2_main yin load remove_silence true listing = Returns (Some (concat parts)) /\
     Forall2 (fun f res =>
                main2_process_file yin load remove_silence f = Returns res /\
                length res = 20%nat /\ Forall (fun r => sounding r = f) res)
             (List.filter is_wav listing) parts /\
     length (concat parts) = (20 * length (List.filter is_wav listing))%nat).
Proof.
  split; [reflexivity|]. intros Hall. apply run_main_rows.
  eapply Forall_impl; [exact Hall|]. intros f Hf. apply main2_process_file_returns, Hf.
Qed.

(** X15.  Neither [main] catches a failure to read a file: if the [.wav]
    files before some file can be read and trimmed and loading that file
    raises, [main] raises the same exception, and no table is written, not
    even for the files already processed. *)
Theorem main_aborts_on_unreadable_file (listing pre post : list string) (f : string)
    (e : exn) :
  List.filter is_wav listing = pre ++ f :: post ->
  Forall readable pre ->
  load f = Raises e ->
  main_main yin load remove_silence true listing = Raises e /\
  main2_main yin load remove_silence true listing = Raises e.
Proof.
  intros Hfiles Hpre Hload. split.
  - destruct (Forall_exists_Forall2
                (fun g res => main_process_file yin load remove_silence g = Returns res) pre)
      as [parts Hparts].
    { eapply Forall_impl; [exact Hpre|]. intros g Hg.
      destruct (main_process_file_returns g Hg) as (res & H & _). exists res. exact H. }
    unfold main_main, run_main. simpl negb. cbv iota. rewrite Hfiles.
    rewrite (for_in_abort _ pre post f e parts Hparts); [reflexivity|].
    unfold main_process_file. rewrite Hload. reflexivity.
  - destruct (Forall_exists_Forall2
                (fun g res => main2_process_file yin load remove_silence g = Returns res) pre)
      as [parts Hparts].
    { eapply Forall_impl; [exact Hpre|]. intros g Hg.
      destruct (main2_process_file_returns g Hg) as (res & H & _). exists res. exact H. }
    unfold main2_main, run_main. simpl negb. cbv iota. rewrite Hfiles.
    rewrite (for_in_abort _ pre post f e parts Hparts); [reflexivity|].
    unfold main2_process_file. rewrite Hload. reflexivity.
Qed.

End BatchFacts.

Lemma readable_demo (f : string) :
  String.eqb f "bad.wav" = false -> readable load_demo trim_demo f.
Proof.
  intros H. exists wave_demo, 16000%positive, wave_demo.
  unfold load_demo. rewrite H. split; reflexivity.
Qed.

Lemma main_main_rows_witness :
  Forall (readable load_demo trim_demo)
         (List.filter is_wav ["a.wav"; "notes.txt"; "B.WAV"]%string) /\
  exists parts,
    main_main yin_demo load_demo trim_demo true ["a.wav"; "notes.txt"; "B.WAV"]%string
    = Returns (Some (concat parts)) /\
    length (concat parts) = 20%nat.
Proof.
  assert (H : Forall (readable load_demo trim_demo)
                (List.filter is_wav ["a.wav"; "notes.txt"; "B.WAV"]%string)).
  { repeat constructor; apply readable_demo; reflexivity. }
  split; [exact H|].
  destruct (main_main_rows yin_demo load_demo trim_demo
              ["a.wav"; "notes.txt"; "B.WAV"]%string) as [_ Hrows].
  destruct (Hrows H) as (parts & Hrun & _ & Hlen).
  exists parts. split; [exact Hrun | exact Hlen].
Defined.

Lemma main2_main_rows_witness :
  Forall (readable load_demo trim_demo)
         (List.filter is_wav ["a.wav"; "notes.txt"; "B.WAV"]%string) /\
  exists parts,
    main2_main yin_demo load_demo trim_demo true ["a.wav"; "notes.txt"; "B.WAV"]%string
    = Returns (Some (concat parts)) /\
    length (concat parts) = 40%nat.
Proof.
  assert (H : Forall (readable load_demo trim_demo)
                (List.filter is_wav ["a.wav"; "notes.txt"; "B.WAV"]%string)).
  { repeat constructor; apply readable_demo; reflexivity. }
  split; [exact H|].
  destruct (main2_main_rows yin_demo load_demo trim_demo
              ["a.wav"; "notes.txt"; "B.WAV"]%string) as [_ Hrows].
  destruct (Hrows H) as (parts & Hrun & _ & Hlen).
  exists parts. split; [exact Hrun | exact Hlen].
Defined.

Lemma main_aborts_on_unreadable_file_witness :
  List.filter is_wav listing_demo = ["a.wav"; "B.WAV"; "bad.wav"; "c.wav"]%string /\
  load_demo "bad.wav" = Raises (PrimitiveError "cannot decode") /\
  main_main yin_demo load_demo trim_demo true listing_demo
  = Raises (PrimitiveError "cannot decode") /\
  main2_main yin_demo load_demo trim_demo true listing_demo
  = Raises (PrimitiveError "cannot decode").
Proof.
  assert (Hpre : Forall (readable load_demo trim_demo) ["a.wav"; "B.WAV"]%string).
  { repeat constructor; apply readable_demo; reflexivity. }
  split; [reflexivity|]. split; [reflexivity|].
  exact (main_aborts_on_unreadable_file yin_demo load_demo trim_demo listing_demo
           ["a.wav"; "B.WAV"]%string ["c.wav"]%string "bad.wav"%string
           (PrimitiveError "cannot decode") eq_refl Hpre eq_refl).
Defined.

Lemma is_wav_spec_witness :
  is_wav "Take 1.WaV" = true /\ is_wav ".wav" = true /\
  is_wav "a.wave" = false /\ is_wav "wav" = false.
Proof.
  split; [|split; [|split; reflexivity]].
  - apply (proj2 (is_wav_spec "Take 1.WaV")).
    exists "Take 1"%string, "W"%char, "a"%char, "V"%char. auto.
  - apply (proj2 (is_wav_spec ".wav")).
    exists EmptyString, "w"%char, "a"%char, "v"%char. auto.
Defined.

(** * The pipeline over machine numbers

    The part above reads every Python float as the rational it stands for and
    computes means, medians and times exactly.  That suits the properties
    that do not depend on how a result is rounded (bounds, order, counts,
    exception flow).  What the scripts compute at each mark does depend on it,
    so the functions are embedded once more with the arithmetic of the
    interpreter and of numpy as a parameter: [F] is the type of the numbers
    (Python floats, and the ints 75, 350, 0 and 2 where they meet a float),
    and each operation of the class [Arith] is the one the source text
    applies.  Nothing is assumed about the operations unless a statement says
    so.  Loops, slices, spans and exceptions are those defined above. *)

Module Fl.

Class Arith (F : Type) : Type := {
  of_int : Z -> F;              (* an int where a float is expected *)
  int_div : Z -> Z -> F;        (* [a / b] on two ints *)
  fadd : F -> F -> F;           (* [x + y] *)
  fsub : F -> F -> F;           (* [x - y] *)
  fdiv : F -> F -> F;           (* [x / y] *)
  fabs : F -> F;                (* [abs(x)] *)
  flt : F -> F -> bool;         (* [x < y] *)
  fge : F -> F -> bool;         (* [x >= y] *)
  py_round : F -> nat -> F;     (* [round(x, ndigits)] *)
  np_mean : list F -> F;        (* [float(np.mean(l))] *)
  np_median : list F -> F       (* [float(np.median(l))] *)
}.

(** A frame of the track returned by [librosa.yin]. *)
Inductive frame (F : Type) : Type :=
| NaN
| Freq (hz : F).

Arguments NaN {F}.
Arguments Freq {F} hz.

Record MarkResult (F : Type) : Type := {
  sounding : string;
  time_mark : nat;
  relative_time_sec : F;
  hz : F
}.

Arguments sounding {F} _.
Arguments time_mark {F} _.
Arguments relative_time_sec {F} _.
Arguments hz {F} _.

Section Common.

Context {F : Type} {AR : Arith F}.

Definition MAX_VALID_HZ : F := of_int 350.
Definition SUB_WINDOWS : nat := 5.

(** [f0[~np.isnan(f0)]] *)
Fixpoint drop_nan (f0 : list (frame F)) : list F :=
  match f0 with
  | [] => []
  | NaN :: rest => drop_nan rest
  | Freq h :: rest => h :: drop_nan rest
  end.

(** [min(best :: rest, key=key)]: the running minimum is replaced only by an
    element whose key is strictly smaller. *)
Fixpoint min_by_key {A : Type} (key : A -> F) (best : A) (rest : list A) : A :=
  match rest with
  | [] => best
  | x :: rest' =>
      if flt (key x) (key best)
      then min_by_key key x rest'
      else min_by_key key best rest'
  end.

(** The slice averaged by [smooth_hz_values] at position [i]. *)
Definition window (hz_list : list F) (i : nat) : list F :=
  if (i =? 0)%nat then slice hz_list 0 2
  else if (i =? length hz_list - 1)%nat then last_n 2 hz_list
  else slice hz_list (i - 1) (i + 2).

Definition smooth_at (hz_list : list F) (i : nat) : F :=
  let value := np_mean (window hz_list i) in
  py_round value 2.

Definition smooth_hz_values (hz_list : list F) : list F :=
  smooth_at hz_list <$> seq 0 (length hz_list).

Section Estimator.

Context {Sample : Type}.
Variable yin : list Sample -> positive -> outcome (list (frame F)).

Definition detect_pitch (segment : list Sample) (sr : positive) : outcome (option F) :=
  try_except
    (f0 <- yin segment sr ;;
     let f0 := drop_nan f0 in
     if (length f0 =? 0)%nat then Returns None
     else Returns (Some (np_median f0)))
    (fun e => Returns None).

Definition sub_window_step (segment : list Sample) (sr : positive)
    (i : nat) (valid_hz_values : list F) : outcome (list F) :=
  let '(start, stop) := span SUB_WINDOWS (length segment) i in
  let sub_segment := slice segment start stop in
  sub_hz <- detect_pitch sub_segment sr ;;
  match sub_hz with
  | Some h =>
      if flt h MAX_VALID_HZ
      then Returns (valid_hz_values ++ [h])
      else Returns valid_hz_values
  | None => Returns valid_hz_values
  end.

Definition robust_pitch_detection (segment : list Sample) (sr : positive) : outcome F :=
  hz <- detect_pitch segment sr ;;
  let fallback :=
    valid_hz_values <- for_range SUB_WINDOWS [] (sub_window_step segment sr) ;;
    if (0 <? length valid_hz_values)%nat
    then Returns (np_median valid_hz_values)
    else Returns MAX_VALID_HZ in
  match hz with
  | Some h => if flt h MAX_VALID_HZ then Returns h else fallback
  | None => fallback
  end.

End Estimator.

End Common.

(** ** [main.py] *)

Module Main.

Definition TIME_MARKS : nat := 10.

Section Pipeline.

Context {F : Type} {AR : Arith F} {Sample : Type}.
Variable yin : list Sample -> positive -> outcome (list (frame F)).

Definition estimate_step (y : list Sample) (sr : positive) (i : nat)
    (st : list F * list (nat * nat)) : outcome (list F * list (nat * nat)) :=
  let '(hz_values, segment_boundaries) := st in
  let '(start_sample, end_sample) := span TIME_MARKS (length y) i in
  let segment := slice y start_sample end_sample in
  hz <- robust_pitch_detection yin segment sr ;;
  Returns (hz_values ++ [hz], segment_boundaries ++ [(start_sample, end_sample)]).

Definition emit_step (name : string) (sr : positive) (hz_values : list F)
    (segment_boundaries : list (nat * nat)) (i : nat)
    (results : list (MarkResult F)) : outcome (list (MarkResult F)) :=
  bounds <- getitem segment_boundaries i ;;
  let '(start_sample, end_sample) := bounds in
  let midpoint_time :=
    fdiv (int_div (Z.of_nat (start_sample + end_sample)) 2) (of_int (Zpos sr)) in
  h <- getitem hz_values i ;;
  Returns (results ++ [ {| sounding := name;
                           time_mark := (i + 1)%nat;
                           relative_time_sec := py_round midpoint_time 3;
                           hz := h |} ]).

Definition process_audio_file (name : string) (y : list Sample) (sr : positive)
  : outcome (list (MarkResult F)) :=
  st <- for_range TIME_MARKS ([], []) (estimate_step y sr) ;;
  let '(hz_values, segment_boundaries) := st in
  let hz_values := smooth_hz_values hz_values in
  for_range TIME_MARKS [] (emit_step name sr hz_values segment_boundaries).

End Pipeline.

End Main.

(** ** [main2.py] *)

Module Main2.

Definition TIME_MARKS : nat := 20.
Definition PRE_SCAN_MARKS : nat := 300.

Record ReferencePoint (F : Type) : Type := {
  rp_time : F;
  rp_hz : option F
}.

Arguments rp_time {F} _.
Arguments rp_hz {F} _.

Record loop_state (F : Type) : Type := {
  hz_values : list F;
  results : list (MarkResult F);
  reset_time : F;
  prev_end_time : F
}.

Arguments hz_values {F} _.
Arguments results {F} _.
Arguments reset_time {F} _.
Arguments prev_end_time {F} _.

Section Pipeline.

Context {F : Type} {AR : Arith F}.

Definition MIN_VALID_HZ : F := of_int 75.

(** The comprehension of [find_nearest_valid_hz]: the points that pass
    [p["hz"] is not None and p["hz"] >= MIN_VALID_HZ], each with its time and
    its frequency, in the order of [prescan_data]. *)
Fixpoint valid_points (prescan_data : list (ReferencePoint F)) : list (F * F) :=
  match prescan_data with
  | [] => []
  | p :: rest =>
      match rp_hz p with
      | Some h =>
          if fge h MIN_VALID_HZ
          then (rp_time p, h) :: valid_points rest
          else valid_points rest
      | None => valid_points rest
      end
  end.

Definition find_nearest_valid_hz (target_time : F) (prescan_data : list (ReferencePoint F))
  : F :=
  match valid_points prescan_data with
  | [] => MIN_VALID_HZ
  | p :: rest =>
      let nearest := min_by_key (fun p => fabs (fsub (fst p) target_time)) p rest in
      snd nearest
  end.

Context {Sample : Type}.
Variable yin : list Sample -> positive -> outcome (list (frame F)).

Definition prescan_step (y : list Sample) (sr : positive) (i : nat)
    (prescan_data : list (ReferencePoint F)) : outcome (list (ReferencePoint F)) :=
  let '(start, stop) := span PRE_SCAN_MARKS (length y) i in
  let segment := slice y start stop in
  hz <- detect_pitch yin segment sr ;;
  let midpoint_time :=
    fdiv (int_div (Z.of_nat (start + stop)) 2) (of_int (Zpos sr)) in
  Returns (prescan_data ++ [ {| rp_time := midpoint_time; rp_hz := hz |} ]).

Definition prescan_300_marks (y : list Sample) (sr : positive)
  : outcome (list (ReferencePoint F)) :=
  for_range PRE_SCAN_MARKS [] (prescan_step y sr).

Definition estimate_step (y : list Sample) (sr : positive) (i : nat)
    (st : list F * list (nat * nat)) : outcome (list F * list (nat * nat)) :=
  let '(hz_values, segment_boundaries) := st in
  let '(start, stop) := span TIME_MARKS (length y) i in
  let segment := slice y start stop in
  hz <- robust_pitch_detection yin segment sr ;;
  Returns (hz_values ++ [hz], segment_boundaries ++ [(start, stop)]).

Definition mark_step (name : string) (sr : positive)
    (prescan_data : list (ReferencePoint F)) (segment_boundaries : list (nat * nat))
    (i : nat) (st : loop_state F) : outcome (loop_state F) :=
  bounds <- getitem segment_boundaries i ;;
  let '(start, stop) := bounds in
  let start_time := int_div (Z.of_nat start) (Zpos sr) in
  let end_time := int_div (Z.of_nat stop) (Zpos sr) in
  let midpoint_time := fdiv (fadd start_time end_time) (of_int 2) in
  h <- getitem (hz_values st) i ;;
  hz_values' <-
    (if flt h MIN_VALID_HZ
     then
       let replacement_hz := find_nearest_valid_hz midpoint_time prescan_data in
       setitem (hz_values st) i (py_round replacement_hz 2)
     else Returns (hz_values st)) ;;
  let reset_time' := if (i =? 10)%nat then prev_end_time st else reset_time st in
  let '(relative_time, excel_mark) :=
    if (i <? 10)%nat
    then (midpoint_time, (i + 1)%nat)
    else (fsub midpoint_time reset_time', ((i - 10) + 1)%nat) in
  h' <- getitem hz_values' i ;;
  Returns {| hz_values := hz_values';
             results := results st ++
               [ {| sounding := name;
                    time_mark := excel_mark;
                    relative_time_sec := py_round relative_time 3;
                    hz := h' |} ];
             reset_time := reset_time';
             prev_end_time := end_time |}.

Definition process_audio_file (name : string) (y : list Sample) (sr : positive)
  : outcome (list (MarkResult F)) :=
  prescan_data <- prescan_300_marks y sr ;;
  st <- for_range TIME_MARKS ([], []) (estimate_step y sr) ;;
  let '(hz_values0, segment_boundaries) := st in
  let hz_values0 := smooth_hz_values hz_values0 in
  final <- for_range TIME_MARKS
             {| hz_values := hz_values0; results := [];
                reset_time := of_int 0; prev_end_time := of_int 0 |}
             (mark_step name sr prescan_data segment_boundaries) ;;
  Returns (results final).

End Pipeline.

End Main2.

(** ** Quantities used in the statements *)

Section Derived.

Context {F : Type} {AR : Arith F} {Sample : Type}.
Variable yin : list Sample -> positive -> outcome (list (frame F)).

(** The primitive-level result for a segment: the computed median of the
    frames that are not NaN, undetermined when the call raises or leaves no
    frame. *)
Definition detected (segment : list Sample) (sr : positive) : option F :=
  match yin segment sr with
  | Returns f0 =>
      match drop_nan f0 with
      | [] => None
      | _ :: _ => Some (np_median (drop_nan f0))
      end
  | Raises _ => None
  end.

(** "Concrete and strictly below [MAX_VALID_HZ]". *)
Definition accepted (o : option F) : option F :=
  match o with
  | Some h => if flt h MAX_VALID_HZ then Some h else None
  | None => None
  end.

(** The sub-window results kept by the fallback, in the wording of the
    specification: the segment is tiled by [spans] into [SUB_WINDOWS] parts
    and the accepted primitive-level results are collected in order. *)
Definition collected (segment : list Sample) (sr : positive) : list F :=
  omap (fun b : nat * nat => accepted (detected (slice segment (fst b) (snd b)) sr))
       (spans SUB_WINDOWS (length segment)).

(** The three cases of the estimator. *)
Definition robust_value (segment : list Sample) (sr : positive) : F :=
  match accepted (detected segment sr) with
  | Some h => h
  | None =>
      match collected segment sr with
      | [] => MAX_VALID_HZ
      | _ :: _ => np_median (collected segment sr)
      end
  end.

(** The estimates of the [count] coarse segments of [y], before smoothing. *)
Definition raw_hz_values (count : nat) (y : list Sample) (sr : positive) : list F :=
  (fun b : nat * nat => robust_value (slice y (fst b) (snd b)) sr)
    <$> spans count (length y).

(** The reference points of a waveform, as [prescan_300_marks] computes
    them. *)
Definition prescan_points (y : list Sample) (sr : positive)
  : list (Main2.ReferencePoint F) :=
  (fun b : nat * nat =>
     {| Main2.rp_time :=
          fdiv (int_div (Z.of_nat (fst b + snd b)) 2) (of_int (Zpos sr));
        Main2.rp_hz := detected (slice y (fst b) (snd b)) sr |})
    <$> spans Main2.PRE_SCAN_MARKS (length y).

End Derived.

Section Times.

Context {F : Type} {AR : Arith F}.

(** The times of [main2.process_audio_file] for a span: [start / sr],
    [end / sr] and [(start_time + end_time) / 2]. *)
Definition start_time (sr : positive) (b : nat * nat) : F :=
  int_div (Z.of_nat (fst b)) (Zpos sr).

Definition end_time (sr : positive) (b : nat * nat) : F :=
  int_div (Z.of_nat (snd b)) (Zpos sr).

Definition midpoint_time (sr : positive) (b : nat * nat) : F :=
  fdiv (fadd (start_time sr b) (end_time sr b)) (of_int 2).

(** The midpoint as [main.process_audio_file] and [prescan_300_marks] compute
    it: [((start + end) / 2) / sr]. *)
Definition midpoint_of_sum (sr : positive) (b : nat * nat) : F :=
  fdiv (int_div (Z.of_nat (fst b + snd b)) 2) (of_int (Zpos sr)).

(** The value emitted by [main2.py] for a mark whose smoothed frequency is
    [s]. *)
Definition patched (prescan_data : list (Main2.ReferencePoint F)) (sr : positive)
    (b : nat * nat) (s : F) : F :=
  if flt s Main2.MIN_VALID_HZ
  then py_round (Main2.find_nearest_valid_hz (midpoint_time sr b) prescan_data) 2
  else s.

(** The record emitted by [main2.py] for mark [i] with bounds [b] and
    smoothed frequency [s], the reset anchor being [anchor]. *)
Definition mark_result (name : string) (prescan_data : list (Main2.ReferencePoint F))
    (sr : positive) (anchor : F) (i : nat) (b : nat * nat) (s : F) : MarkResult F :=
  {| sounding := name;
     time_mark := if (i <? 10)%nat then (i + 1)%nat else (i - 10 + 1)%nat;
     relative_time_sec :=
       py_round (if (i <? 10)%nat then midpoint_time sr b
                 else fsub (midpoint_time sr b) anchor) 3;
     hz := patched prescan_data sr b s |}.

(** The reset anchor: the end time of the segment of mark 9. *)
Definition reset_anchor (sr : positive) (total_len : nat) : F :=
  end_time sr (span Main2.TIME_MARKS total_len 9).

(** Invariant of the second loop of [main2.process_audio_file] before
    iteration [i]. *)
Definition mark_loop_inv (name : string) (prescan_data : list (Main2.ReferencePoint F))
    (sr : positive) (total_len : nat) (smoothed : list F)
    (i : nat) (st : Main2.loop_state F) : Prop :=
  length (Main2.hz_values st) = length smoothed /\
  (forall j, (i <= j)%nat -> Main2.hz_values st !! j = smoothed !! j) /\
  length (Main2.results st) = i /\
  (forall j s, (j < i)%nat -> smoothed !! j = Some s ->
     Main2.results st !! j =
     Some (mark_result name prescan_data sr (reset_anchor sr total_len) j
             (span Main2.TIME_MARKS total_len j) s)) /\
  Main2.prev_end_time st =
    match i with
    | O => of_int 0
    | S k => end_time sr (span Main2.TIME_MARKS total_len k)
    end /\
  ((10 < i)%nat -> Main2.reset_time st = reset_anchor sr total_len).

(** The record emitted by [main.py] for mark [i] with bounds [b] and smoothed
    frequency [h]. *)
Definition main_result (name : string) (sr : positive) (i : nat) (b : nat * nat) (h : F)
  : MarkResult F :=
  {| sounding := name;
     time_mark := (i + 1)%nat;
     relative_time_sec := py_round (midpoint_of_sum sr b) 3;
     hz := h |}.

End Times.

(** ** Smoothing *)

Section Smoothing.

Context {F : Type} {AR : Arith F}.

Lemma length_smooth_hz_values_fl (hz_list : list F) :
  length (smooth_hz_values hz_list) = length hz_list.
Proof. unfold smooth_hz_values. rewrite length_fmap, length_seq. reflexivity. Qed.

Lemma lookup_smooth_hz_values_fl (hz_list : list F) (i : nat) :
  (i < length hz_list)%nat ->
  smooth_hz_values hz_list !! i = Some (smooth_at hz_list i).
Proof.
  intros Hi. unfold smooth_hz_values.
  rewrite list_lookup_fmap, lookup_seq_lt by assumption. reflexivity.
Qed.

Lemma window_first_fl (l : list F) (a b : F) :
  l !! 0%nat = Some a -> l !! 1%nat = Some b -> window l 0 = [a; b].
Proof. intros Ha Hb. unfold window, slice. simpl. apply take_drop_2; assumption. Qed.

Lemma window_last_fl (l : list F) (a b : F) :
  (2 <= length l)%nat ->
  l !! (length l - 2)%nat = Some a -> l !! (length l - 1)%nat = Some b ->
  window l (length l - 1) = [a; b].
Proof.
  intros Hn Ha Hb. unfold window.
  destruct (Nat.eqb_spec (length l - 1) 0); [lia|].
  rewrite Nat.eqb_refl. unfold last_n.
  rewrite <- (take_drop_2 l (length l - 2) a b Ha).
  - symmetry. apply take_ge. rewrite length_drop. lia.
  - replace (S (length l - 2)) with (length l - 1)%nat by lia. exact Hb.
Qed.

Lemma window_inner_fl (l : list F) (i : nat) (a b c : F) :
  (0 < i < length l - 1)%nat ->
  l !! (i - 1)%nat = Some a -> l !! i = Some b -> l !! (i + 1)%nat = Some c ->
  window l i = [a; b; c].
Proof.
  intros Hi Ha Hb Hc. unfold window.
  destruct (Nat.eqb_spec i 0); [lia|].
  destruct (Nat.eqb_spec i (length l - 1)); [lia|].
  unfold slice. replace (i + 2 - (i - 1))%nat with 3%nat by lia.
  apply take_drop_3; [assumption | |].
  - replace (S (i - 1)) with i by lia. assumption.
  - replace (S (S (i - 1))) with (i + 1)%nat by lia. assumption.
Qed.

(** C7.  [smooth_hz_values] returns a list of the length of its input.  On an
    input of length at least 2 its first element is the mean of the first two
    inputs, its last element the mean of the last two, and its element at an
    interior position [i] the mean of the inputs at [i-1], [i] and [i+1];
    each mean is the one [np.mean] computes and is rounded by [round] to 2
    decimals. *)
Theorem smooth_hz_values_windows (l : list F) :
  length (smooth_hz_values l) = length l /\
  ((2 <= length l)%nat ->
   (forall a b, l !! 0%nat = Some a -> l !! 1%nat = Some b ->
      smooth_hz_values l !! 0%nat = Some (py_round (np_mean [a; b]) 2)) /\
   (forall a b, l !! (length l - 2)%nat = Some a -> l !! (length l - 1)%nat = Some b ->
      smooth_hz_values l !! (length l - 1)%nat = Some (py_round (np_mean [a; b]) 2)) /\
   (forall i a b c, (0 < i < length l - 1)%nat ->
      l !! (i - 1)%nat = Some a -> l !! i = Some b -> l !! (i + 1)%nat = Some c ->
      smooth_hz_values l !! i = Some (py_round (np_mean [a; b; c]) 2))).
Proof.
  split; [apply length_smooth_hz_values_fl|]. intros Hn. repeat split.
  - intros a b Ha Hb. rewrite lookup_smooth_hz_values_fl by lia.
    unfold smooth_at. rewrite (window_first_fl l a b Ha Hb). reflexivity.
  - intros a b Ha Hb. rewrite lookup_smooth_hz_values_fl by lia.
    unfold smooth_at. rewrite (window_last_fl l a b Hn Ha Hb). reflexivity.
  - intros i a b c Hi Ha Hb Hc. rewrite lookup_smooth_hz_values_fl by lia.
    unfold smooth_at. rewrite (window_inner_fl l i a b c Hi Ha Hb Hc). reflexivity.
Qed.

Lemma window_replicate (v : F) (n i : nat) :
  (i < n)%nat ->
  window (replicate n v) i =
  replicate (if (n =? 1)%nat then 1
             else if ((i =? 0) || (i =? n - 1))%nat then 2 else 3)%nat v.
Proof.
  intros Hi. unfold window, slice, last_n. rewrite length_replicate.
  destruct (Nat.eqb_spec n 1) as [-> | Hn1].
  - assert (i = 0)%nat as -> by lia. reflexivity.
  - destruct (Nat.eqb_spec i 0) as [-> | Hi0]; simpl orb.
    + rewrite drop_replicate, take_replicate. f_equal. lia.
    + destruct (Nat.eqb_spec i (n - 1)) as [-> | Hil].
      * rewrite drop_replicate. f_equal. lia.
      * rewrite drop_replicate, take_replicate. f_equal. lia.
Qed.

(** C8, amended.  Smoothing a constant sequence of value [v] gives a sequence
    of the same length whose first and last elements are the rounded mean of
    two copies of [v] and whose interior elements are the rounded mean of
    three copies (of one copy when the sequence has one element).  It is the
    input itself whenever those means are [v] and [v] is its own rounding to
    2 decimals.  For every input the output has the length of the input. *)
Theorem smooth_hz_values_constant_windows (v : F) (n : nat) :
  (forall i, (i < n)%nat ->
     smooth_hz_values (replicate n v) !! i =
     Some (py_round
             (np_mean (replicate (if (n =? 1)%nat then 1
                                  else if ((i =? 0) || (i =? n - 1))%nat then 2
                                       else 3)%nat v)) 2)) /\
  (np_mean [v] = v -> np_mean [v; v] = v -> np_mean [v; v; v] = v ->
   py_round v 2 = v ->
   smooth_hz_values (replicate n v) = replicate n v) /\
  (forall l : list F, length (smooth_hz_values l) = length l).
Proof.
  assert (Hat : forall i, (i < n)%nat ->
            smooth_hz_values (replicate n v) !! i =
            Some (py_round
                    (np_mean (replicate (if (n =? 1)%nat then 1
                                         else if ((i =? 0) || (i =? n - 1))%nat then 2
                                              else 3)%nat v)) 2)).
  { intros i Hi. rewrite lookup_smooth_hz_values_fl by (rewrite length_replicate; exact Hi).
    unfold smooth_at. rewrite (window_replicate v n i Hi). reflexivity. }
  split; [exact Hat|]. split; [|apply length_smooth_hz_values_fl].
  intros H1 H2 H3 Hr. apply list_eq. intros i.
  destruct (Nat.lt_ge_cases i n) as [Hi | Hi].
  - rewrite (Hat i Hi), (lookup_replicate_2 n v i Hi). f_equal.
    destruct (n =? 1)%nat; [|destruct ((i =? 0) || (i =? n - 1))%nat]; simpl replicate;
      rewrite ?H1, ?H2, ?H3; exact Hr.
  - rewrite (lookup_ge_None_2 (smooth_hz_values _)), (lookup_ge_None_2 (replicate _ _));
      rewrite ?length_smooth_hz_values_fl, ?length_replicate; auto.
Qed.

End Smoothing.

(** ** The estimator *)

Section EstimatorFacts.

Context {F : Type} {AR : Arith F} {Sample : Type}.
Variable yin : list Sample -> positive -> outcome (list (frame F)).

Lemma detect_pitch_returns_fl (segment : list Sample) (sr : positive) :
  detect_pitch yin segment sr = Returns (detected yin segment sr).
Proof.
  unfold detect_pitch, detected. destruct (yin segment sr) as [f0 | e]; simpl.
  - destruct (drop_nan f0); reflexivity.
  - reflexivity.
Qed.

Lemma accepted_Some_fl (o : option F) (h : F) :
  accepted o = Some h <-> o = Some h /\ flt h MAX_VALID_HZ = true.
Proof.
  unfold accepted. destruct o as [x|].
  - destruct (flt x MAX_VALID_HZ) eqn:E; split.
    + intros [= <-]. auto.
    + intros [[= <-] _]. reflexivity.
    + discriminate.
    + intros [[= <-] Hlt]. congruence.
  - split; [discriminate | intros [[=] _]].
Qed.

Lemma sub_window_step_returns_fl (segment : list Sample) (sr : positive) (i : nat)
    (valid_hz_values : list F) :
  sub_window_step yin segment sr i valid_hz_values =
  Returns (valid_hz_values ++
           omap (fun b : nat * nat =>
                   accepted (detected yin (slice segment (fst b) (snd b)) sr))
                [span SUB_WINDOWS (length segment) i]).
Proof.
  unfold sub_window_step.
  destruct (span SUB_WINDOWS (length segment) i) as [start stop] eqn:E.
  rewrite detect_pitch_returns_fl. simpl.
  destruct (detected yin (slice segment start stop) sr) as [h|]; simpl.
  - destruct (flt h MAX_VALID_HZ); rewrite ?app_nil_r; reflexivity.
  - rewrite app_nil_r. reflexivity.
Qed.

Lemma sub_window_loop_fl (segment : list Sample) (sr : positive) :
  for_range SUB_WINDOWS [] (sub_window_step yin segment sr) =
  Returns (collected yin segment sr).
Proof.
  destruct (for_range_invariant
    (fun i st => st =
       omap (fun b : nat * nat =>
               accepted (detected yin (slice segment (fst b) (snd b)) sr))
            (span SUB_WINDOWS (length segment) <$> seq 0 i))
    (sub_window_step yin segment sr) SUB_WINDOWS []) as (s' & Hrun & ->).
  - reflexivity.
  - intros i st _ ->. eexists. split; [apply sub_window_step_returns_fl|].
    rewrite seq_S, fmap_app, omap_app. reflexivity.
  - exact Hrun.
Qed.

(** Whatever the primitive does, [robust_pitch_detection] returns, and it
    returns [robust_value]. *)
Lemma robust_pitch_detection_cases_fl (segment : list Sample) (sr : positive) :
  robust_pitch_detection yin segment sr = Returns (robust_value yin segment sr).
Proof.
  unfold robust_pitch_detection, robust_value. rewrite detect_pitch_returns_fl. simpl.
  rewrite sub_window_loop_fl. simpl.
  assert (Hfb :
    (if (0 <? length (collected yin segment sr))%nat
     then Returns (np_median (collected yin segment sr))
     else Returns MAX_VALID_HZ) =
    Returns match collected yin segment sr with
            | [] => MAX_VALID_HZ
            | _ :: _ => np_median (collected yin segment sr)
            end).
  { destruct (collected yin segment sr); reflexivity. }
  rewrite Hfb. unfold accepted.
  destruct (detected yin segment sr) as [h|]; [|reflexivity].
  destruct (flt h MAX_VALID_HZ); reflexivity.
Qed.

(** What the bounds of the estimator need of the arithmetic; all of it holds
    of binary floating point: the median of non-negative numbers is
    non-negative, the median of numbers below 350 is at most 350, a number
    below 350 is at most 350, and 350 is at least 0 and itself. *)
Definition bounds_respected : Prop :=
  (forall l : list F, l <> [] ->
     Forall (fun x => fge x (of_int 0) = true) l -> fge (np_median l) (of_int 0) = true) /\
  (forall l : list F, l <> [] ->
     Forall (fun x => flt x MAX_VALID_HZ = true) l -> fge MAX_VALID_HZ (np_median l) = true) /\
  (forall x : F, flt x MAX_VALID_HZ = true -> fge MAX_VALID_HZ x = true) /\
  fge (MAX_VALID_HZ : F) (of_int 0) = true /\
  fge (MAX_VALID_HZ : F) MAX_VALID_HZ = true.

(** The primitive never yields a negative frequency. *)
Definition primitive_nonneg : Prop :=
  forall segment sr f0,
    yin segment sr = Returns f0 ->
    Forall (fun h => fge h (of_int 0) = true) (drop_nan f0).

Lemma detected_nonneg_fl (segment : list Sample) (sr : positive) (h : F) :
  bounds_respected -> primitive_nonneg ->
  detected yin segment sr = Some h -> fge h (of_int 0) = true.
Proof.
  intros (Hm0 & _) Hnn. unfold detected.
  destruct (yin segment sr) as [f0 | e] eqn:E; [|discriminate].
  specialize (Hnn _ _ _ E).
  destruct (drop_nan f0) as [|x l] eqn:El; [discriminate|].
  intros [= <-]. apply Hm0; [discriminate | exact Hnn].
Qed.

Lemma collected_facts_fl (segment : list Sample) (sr : positive) :
  bounds_respected -> primitive_nonneg ->
  Forall (fun x => fge x (of_int 0) = true) (collected yin segment sr) /\
  Forall (fun x => flt x MAX_VALID_HZ = true) (collected yin segment sr).
Proof.
  intros HB Hnn. unfold collected.
  split; apply list.Forall_forall; intros h Hin;
    apply list_elem_of_omap in Hin; destruct Hin as (b & _ & Hb);
    apply accepted_Some_fl in Hb; destruct Hb as [Hd Hlt].
  - exact (detected_nonneg_fl _ _ _ HB Hnn Hd).
  - exact Hlt.
Qed.

(** C1.  If the primitive yields only non-negative frequencies (and the
    arithmetic respects the bounds, as floating point does), then for every
    segment and sample rate [robust_pitch_detection] returns a number [r], no
    exception and no undetermined value, with [0 <= r <= MAX_VALID_HZ]: the
    whole-segment median when it is concrete and strictly below
    [MAX_VALID_HZ]; otherwise the median of the sub-window medians that are
    concrete and strictly below [MAX_VALID_HZ], the sub-windows being the
    [SUB_WINDOWS] spans of the segment, when there is at least one; otherwise
    [MAX_VALID_HZ].  The medians and the comparisons are the computed ones. *)
Theorem robust_pitch_detection_float_spec :
  bounds_respected ->
  primitive_nonneg ->
  forall (segment : list Sample) (sr : positive),
  exists r : F,
    robust_pitch_detection yin segment sr = Returns r /\
    fge r (of_int 0) = true /\ fge MAX_VALID_HZ r = true /\
    (forall h, detected yin segment sr = Some h -> flt h MAX_VALID_HZ = true -> r = h) /\
    (accepted (detected yin segment sr) = None ->
       (collected yin segment sr <> [] -> r = np_median (collected yin segment sr)) /\
       (collected yin segment sr = [] -> r = MAX_VALID_HZ)).
Proof.
  intros HB Hnn segment sr. exists (robust_value yin segment sr).
  split; [apply robust_pitch_detection_cases_fl|].
  destruct (collected_facts_fl segment sr HB Hnn) as [Hc0 HcM].
  pose proof HB as (Hm0 & HmM & Hlt & HM0 & HMM).
  unfold robust_value.
  destruct (accepted (detected yin segment sr)) as [h|] eqn:Ea.
  - apply accepted_Some_fl in Ea. destruct Ea as [Ed Hh].
    split; [exact (detected_nonneg_fl _ _ _ HB Hnn Ed)|].
    split; [exact (Hlt h Hh)|]. split.
    + intros h' Eh' _. congruence.
    + discriminate.
  - destruct (collected yin segment sr) as [|x l] eqn:Ec.
    + split; [exact HM0|]. split; [exact HMM|]. split.
      * intros h Eh Hh.
        assert (Some h = None)
          by (rewrite <- Ea; symmetry; apply accepted_Some_fl; auto).
        discriminate.
      * intros _. split; congruence.
    + split; [apply Hm0; [discriminate | exact Hc0]|].
      split; [apply HmM; [discriminate | exact HcM]|]. split.
      * intros h Eh Hh.
        assert (Some h = None)
          by (rewrite <- Ea; symmetry; apply accepted_Some_fl; auto).
        discriminate.
      * intros _. split; congruence.
Qed.

End EstimatorFacts.

(** ** Nearest valid reference point *)

Section Nearest.

Context {F : Type} {AR : Arith F}.

(** [<] is a strict weak order on the numbers that satisfy [P], as it is on
    floats that are not NaN. *)
Definition lt_strict_weak_order_on (P : F -> Prop) : Prop :=
  (forall a : F, P a -> flt a a = false) /\
  (forall a b c : F, P a -> P b -> P c ->
     flt a b = true -> flt b c = true -> flt a c = true) /\
  (forall a b c : F, P a -> P b -> P c ->
     flt a b = false -> flt b c = false -> flt a c = false).

(** The distances [abs(p["time"] - target_time)] that [min] compares. *)
Definition distances (target_time : F) (ps : list (Main2.ReferencePoint F)) : list F :=
  (fun p : F * F => fabs (fsub (fst p) target_time)) <$> Main2.valid_points ps.

Lemma min_by_key_elem {A : Type} (key : A -> F) (rest : list A) (best : A) :
  min_by_key key best rest ∈ best :: rest.
Proof.
  revert best. induction rest as [|x rest IH]; intros best; simpl.
  - left.
  - destruct (flt (key x) (key best)).
    + right. apply IH.
    + specialize (IH best). apply elem_of_cons in IH. destruct IH as [-> | IH].
      * left.
      * right. right. exact IH.
Qed.

Lemma min_by_key_first_least {A : Type} (key : A -> F) (P : F -> Prop) (rest : list A) :
  lt_strict_weak_order_on P ->
  forall best : A,
  (forall x, x ∈ best :: rest -> P (key x)) ->
  exists i : nat,
    (best :: rest) !! i = Some (min_by_key key best rest) /\
    forall j x, (best :: rest) !! j = Some x ->
      flt (key x) (key (min_by_key key best rest)) = false /\
      ((j < i)%nat -> flt (key (min_by_key key best rest)) (key x) = true).
Proof.
  intros (Hirr & Htr & Hneg).
  assert (Hasym : forall a b : F, P a -> P b -> flt a b = true -> flt b a = false).
  { intros a b Pa Pb Hab. destruct (flt b a) eqn:Hba; [|reflexivity].
    rewrite <- (Hirr a Pa). symmetry. exact (Htr a b a Pa Pb Pa Hab Hba). }
  assert (Hmix : forall a b c : F, P a -> P b -> P c ->
            flt b a = false -> flt b c = true -> flt a c = true).
  { intros a b c Pa Pb Pc Hba Hbc. destruct (flt a c) eqn:Hac; [reflexivity|].
    rewrite (Hneg b a c Pb Pa Pc Hba Hac) in Hbc. discriminate. }
  assert (Hmix' : forall a b c : F, P a -> P b -> P c ->
            flt a b = true -> flt c b = false -> flt a c = true).
  { intros a b c Pa Pb Pc Hab Hcb. destruct (flt a c) eqn:Hac; [reflexivity|].
    rewrite (Hneg a c b Pa Pc Pb Hac Hcb) in Hab. discriminate. }
  induction rest as [|x rest IH]; intros best HP.
  - exists 0%nat. split; [reflexivity|].
    intros [|j] y; simpl; [|discriminate]. intros [= <-].
    split; [apply Hirr, HP; left | lia].
  - assert (Pb : P (key best)) by (apply HP; left).
    assert (Px : P (key x)) by (apply HP; right; left).
    assert (Prest : forall z, z ∈ rest -> P (key z)) by (intros z Hz; apply HP; right; right; exact Hz).
    simpl min_by_key. destruct (flt (key x) (key best)) eqn:Hxb.
    + assert (HPx : forall z, z ∈ x :: rest -> P (key z)).
      { intros z Hz. apply HP. right. exact Hz. }
      destruct (IH x HPx) as (i & Hi & Hmin). exists (S i). split; [exact Hi|].
      assert (Pm : P (key (min_by_key key x rest))) by (apply HPx, min_by_key_elem).
      destruct (Hmin 0%nat x eq_refl) as [Hmx _].
      intros [|j] y Hy.
      * injection Hy as <-.
        assert (Hmb : flt (key (min_by_key key x rest)) (key best) = true)
          by exact (Hmix _ _ _ Pm Px Pb Hmx Hxb).
        split; [exact (Hasym _ _ Pm Pb Hmb) | intros _; exact Hmb].
      * destruct (Hmin j y Hy) as [H1 H2]. split; [exact H1 | intros; apply H2; lia].
    + assert (HPb : forall z, z ∈ best :: rest -> P (key z)).
      { intros z Hz. apply elem_of_cons in Hz. destruct Hz as [-> | Hz]; auto. }
      destruct (IH best HPb) as (i & Hi & Hmin).
      assert (Pm : P (key (min_by_key key best rest))) by (apply HPb, min_by_key_elem).
      destruct (Hmin 0%nat best eq_refl) as [Hmb Hmb'].
      exists (match i with O => O | S i' => S (S i') end). split.
      { destruct i; [exact Hi | exact Hi]. }
      intros [|[|j]] y Hy.
      * destruct (Hmin 0%nat y Hy) as [H1 H2]. split; [exact H1|].
        destruct i; [lia | intros _; apply H2; lia].
      * injection Hy as <-. split; [exact (Hneg _ _ _ Px Pb Pm Hxb Hmb)|].
        destruct i; [lia|]. intros _.
        exact (Hmix' _ _ _ Pm Pb Px (Hmb' ltac:(lia)) Hxb).
      * destruct (Hmin (S j) y Hy) as [H1 H2]. split; [exact H1|].
        destruct i; [lia | intros; apply H2; lia].
Qed.

Lemma valid_points_sublist_fl (ps : list (Main2.ReferencePoint F)) :
  sublist ((fun p : F * F => {| Main2.rp_time := fst p; Main2.rp_hz := Some (snd p) |})
             <$> Main2.valid_points ps) ps.
Proof.
  induction ps as [|[t [h|]] ps IH]; simpl.
  - constructor.
  - destruct (fge h Main2.MIN_VALID_HZ); simpl; constructor; exact IH.
  - constructor. exact IH.
Qed.

Lemma valid_points_elem_fl (ps : list (Main2.ReferencePoint F)) (t h : F) :
  (t, h) ∈ Main2.valid_points ps <->
  exists p, p ∈ ps /\ Main2.rp_time p = t /\ Main2.rp_hz p = Some h /\
            fge h Main2.MIN_VALID_HZ = true.
Proof.
  induction ps as [|p ps IH]; simpl.
  - split; [intros H; inversion H | intros (p & H & _); inversion H].
  - destruct p as [tp [hp|]]; simpl.
    + destruct (fge hp Main2.MIN_VALID_HZ) eqn:E.
      * rewrite elem_of_cons, IH. split.
        -- intros [[= -> ->] | (p & Hp & H)].
           ++ eexists. split; [left|]. simpl. auto.
           ++ exists p. split; [right; exact Hp | exact H].
        -- intros (p & Hp & Ht & Hh & Hm). apply elem_of_cons in Hp.
           destruct Hp as [-> | Hp].
           ++ left. simpl in *. congruence.
           ++ right. exists p. auto.
      * rewrite IH. split.
        -- intros (p & Hp & H). exists p. split; [right; exact Hp | exact H].
        -- intros (p & Hp & Ht & Hh & Hm). apply elem_of_cons in Hp.
           destruct Hp as [-> | Hp].
           ++ simpl in *. injection Hh as ->. congruence.
           ++ exists p. auto.
    + rewrite IH. split.
      * intros (p & Hp & H). exists p. split; [right; exact Hp | exact H].
      * intros (p & Hp & Ht & Hh & Hm). apply elem_of_cons in Hp.
        destruct Hp as [-> | Hp]; [discriminate|]. exists p. auto.
Qed.

Lemma find_nearest_valid_hz_floor_fl (target_time : F) (ps : list (Main2.ReferencePoint F)) :
  Main2.valid_points ps = [] ->
  Main2.find_nearest_valid_hz target_time ps = Main2.MIN_VALID_HZ.
Proof. unfold Main2.find_nearest_valid_hz. intros ->. reflexivity. Qed.

(** C6.  [find_nearest_valid_hz] keeps, in scan order, exactly the pre-scan
    points whose frequency is concrete and passes [>= MIN_VALID_HZ].  If there
    is none it returns [MIN_VALID_HZ], for every query time.  Otherwise it
    returns the frequency of a kept point whose distance to the query time,
    as computed by [abs(p["time"] - target_time)], is not above that of any
    kept point and is strictly below that of every kept point before it in
    scan order: the closest point, the first one on a tie.  The comparison
    [<] is taken to be a strict weak order on the distances computed, which
    it is when none of them is NaN. *)
Theorem find_nearest_valid_hz_float_spec (target_time : F)
    (ps : list (Main2.ReferencePoint F)) :
  lt_strict_weak_order_on (fun d => d ∈ distances target_time ps) ->
  sublist ((fun p : F * F => {| Main2.rp_time := fst p; Main2.rp_hz := Some (snd p) |})
             <$> Main2.valid_points ps) ps /\
  (forall t h, (t, h) ∈ Main2.valid_points ps <->
     exists p, p ∈ ps /\ Main2.rp_time p = t /\ Main2.rp_hz p = Some h /\
               fge h Main2.MIN_VALID_HZ = true) /\
  ((forall p h, p ∈ ps -> Main2.rp_hz p = Some h -> fge h Main2.MIN_VALID_HZ = false) ->
     Main2.find_nearest_valid_hz target_time ps = Main2.MIN_VALID_HZ) /\
  (Main2.valid_points ps <> [] ->
     exists (i : nat) (t h : F),
       Main2.valid_points ps !! i = Some (t, h) /\
       Main2.find_nearest_valid_hz target_time ps = h /\
       forall j t' h', Main2.valid_points ps !! j = Some (t', h') ->
         flt (fabs (fsub t' target_time)) (fabs (fsub t target_time)) = false /\
         ((j < i)%nat ->
            flt (fabs (fsub t target_time)) (fabs (fsub t' target_time)) = true)).
Proof.
  intros Hord.
  split; [apply valid_points_sublist_fl|].
  split; [apply valid_points_elem_fl|].
  split.
  - intros Hnone. apply find_nearest_valid_hz_floor_fl.
    destruct (Main2.valid_points ps) as [|[t h] vs] eqn:E; [reflexivity|].
    assert (Hin : (t, h) ∈ Main2.valid_points ps) by (rewrite E; left).
    apply valid_points_elem_fl in Hin. destruct Hin as (p & Hp & _ & Hh & Hm).
    rewrite (Hnone p h Hp Hh) in Hm. discriminate.
  - intros Hne. unfold Main2.find_nearest_valid_hz. unfold distances in Hord.
    destruct (Main2.valid_points ps) as [|p rest]; [congruence|].
    destruct (min_by_key_first_least
                (fun p : F * F => fabs (fsub (fst p) target_time)) _ rest Hord p)
      as (i & Hi & Hmin).
    { intros x Hx. apply list_elem_of_fmap. exists x. split; [reflexivity | exact Hx]. }
    set (m := min_by_key _ p rest) in *.
    exists i, (fst m), (snd m). split; [rewrite Hi; destruct m; reflexivity|].
    split; [reflexivity|].
    intros j t' h' Hj. exact (Hmin j (t', h') Hj).
Qed.

End Nearest.

(** ** The two pipelines *)

Section Pipelines.

Context {F : Type} {AR : Arith F}.

Lemma mark_step_returns_fl (name : string) (sr : positive)
    (prescan_data : list (Main2.ReferencePoint F)) (segment_boundaries : list (nat * nat))
    (i : nat) (st : Main2.loop_state F) (b : nat * nat) (s : F) :
  segment_boundaries !! i = Some b ->
  Main2.hz_values st !! i = Some s ->
  Main2.mark_step name sr prescan_data segment_boundaries i st =
  Returns
    {| Main2.hz_values :=
         if flt s Main2.MIN_VALID_HZ
         then <[i := patched prescan_data sr b s]> (Main2.hz_values st)
         else Main2.hz_values st;
       Main2.results :=
         Main2.results st ++
         [mark_result name prescan_data sr
            (if (i =? 10)%nat then Main2.prev_end_time st else Main2.reset_time st) i b s];
       Main2.reset_time :=
         if (i =? 10)%nat then Main2.prev_end_time st else Main2.reset_time st;
       Main2.prev_end_time := end_time sr b |}.
Proof.
  intros Hb Hs. unfold Main2.mark_step.
  rewrite (getitem_Some _ _ _ Hb). destruct b as [start stop]. unfold bind at 1.
  rewrite (getitem_Some _ _ _ Hs). unfold bind at 1.
  assert (Hlen : (i < length (Main2.hz_values st))%nat) by (eapply lookup_lt_Some; eauto).
  unfold mark_result, patched, midpoint_time, start_time, end_time. cbn [fst snd].
  destruct (flt s Main2.MIN_VALID_HZ).
  - unfold setitem. destruct (Nat.ltb_spec i (length (Main2.hz_values st))); [|lia].
    unfold bind at 1.
    rewrite (getitem_Some _ _ _ (list_lookup_insert_eq _ _ _ Hlen)). unfold bind at 1.
    destruct (i <? 10)%nat; reflexivity.
  - unfold bind at 1. rewrite (getitem_Some _ _ _ Hs). unfold bind at 1.
    destruct (i <? 10)%nat; reflexivity.
Qed.

Lemma mark_result_anchor_fl (name : string) (prescan_data : list (Main2.ReferencePoint F))
    (sr : positive) (a a' : F) (i : nat) (b : nat * nat) (s : F) :
  ((10 <= i)%nat -> a = a') ->
  mark_result name prescan_data sr a i b s = mark_result name prescan_data sr a' i b s.
Proof.
  intros H. unfold mark_result. destruct (Nat.ltb_spec i 10); [reflexivity|].
  rewrite (H ltac:(lia)). reflexivity.
Qed.

Lemma mark_loop_fl (name : string) (prescan_data : list (Main2.ReferencePoint F))
    (sr : positive) (total_len : nat) (smoothed : list F) :
  length smoothed = Main2.TIME_MARKS ->
  exists final,
    for_range Main2.TIME_MARKS
      {| Main2.hz_values := smoothed; Main2.results := [];
         Main2.reset_time := of_int 0; Main2.prev_end_time := of_int 0 |}
      (Main2.mark_step name sr prescan_data (spans Main2.TIME_MARKS total_len))
    = Returns final /\
    mark_loop_inv name prescan_data sr total_len smoothed Main2.TIME_MARKS final.
Proof.
  intros Hlen. apply for_range_invariant.
  - repeat split; simpl; try reflexivity; try lia.
  - intros i st Hi (Hl & Hrest & Hres & Hdone & Hprev & Hreset).
    destruct (lookup_lt_is_Some_2 smoothed i ltac:(lia)) as [s Hs].
    pose proof (lookup_spans Main2.TIME_MARKS total_len i Hi) as Hb.
    assert (Hcur : Main2.hz_values st !! i = Some s) by (rewrite Hrest by lia; exact Hs).
    eexists. split; [apply (mark_step_returns_fl _ _ _ _ _ _ _ _ Hb Hcur)|].
    unfold mark_loop_inv. cbn [Main2.hz_values Main2.results Main2.reset_time
                               Main2.prev_end_time].
    split; [destruct (flt s Main2.MIN_VALID_HZ); rewrite ?length_insert; exact Hl|].
    split.
    { intros j Hj. destruct (flt s Main2.MIN_VALID_HZ).
      - rewrite list_lookup_insert_ne by lia. apply Hrest. lia.
      - apply Hrest. lia. }
    split; [rewrite length_app, Hres; simpl; lia|].
    assert (Hanchor : (10 <= i)%nat ->
              (if (i =? 10)%nat then Main2.prev_end_time st else Main2.reset_time st)
              = reset_anchor sr total_len).
    { intros H10. destruct (Nat.eqb_spec i 10) as [-> | Hne].
      - rewrite Hprev. reflexivity.
      - apply Hreset. lia. }
    split.
    { intros j s' Hj Hs'. destruct (Nat.eq_dec j i) as [-> | Hne].
      - rewrite lookup_app_r by lia. rewrite Hres, Nat.sub_diag. simpl.
        assert (s' = s) as -> by congruence.
        f_equal. apply mark_result_anchor_fl. exact Hanchor.
      - rewrite lookup_app_l by lia. apply Hdone; [lia | exact Hs']. }
    split; [reflexivity|].
    intros H10. apply Hanchor. lia.
Qed.

Lemma main_emit_loop_fl (name : string) (sr : positive) (hz_values : list F)
    (total_len : nat) :
  length hz_values = Main.TIME_MARKS ->
  exists res,
    for_range Main.TIME_MARKS []
      (Main.emit_step name sr hz_values (spans Main.TIME_MARKS total_len)) = Returns res /\
    length res = Main.TIME_MARKS /\
    forall i h, hz_values !! i = Some h ->
      res !! i = Some (main_result name sr i (span Main.TIME_MARKS total_len i) h).
Proof.
  intros Hlen.
  destruct (for_range_invariant
    (fun i res =>
       length res = i /\
       forall j h, (j < i)%nat -> hz_values !! j = Some h ->
         res !! j = Some (main_result name sr j (span Main.TIME_MARKS total_len j) h))
    (Main.emit_step name sr hz_values (spans Main.TIME_MARKS total_len))
    Main.TIME_MARKS []) as (res & Hrun & Hl & Hdone).
  - split; [reflexivity | intros; lia].
  - intros i res Hi [Hl Hdone].
    destruct (lookup_lt_is_Some_2 hz_values i ltac:(lia)) as [h Hh].
    pose proof (lookup_spans Main.TIME_MARKS total_len i Hi) as Hb.
    exists (res ++ [main_result name sr i (span Main.TIME_MARKS total_len i) h]).
    split.
    + unfold Main.emit_step. rewrite (getitem_Some _ _ _ Hb).
      destruct (span Main.TIME_MARKS total_len i) as [a b]. unfold bind at 1.
      rewrite (getitem_Some _ _ _ Hh). reflexivity.
    + split; [rewrite length_app, Hl; simpl; lia|].
      intros j h' Hj Hh'. destruct (Nat.eq_dec j i) as [-> | Hne].
      * rewrite lookup_app_r by lia. rewrite Hl, Nat.sub_diag. simpl. congruence.
      * rewrite lookup_app_l by lia. apply Hdone; [lia | exact Hh'].
  - exists res. split; [exact Hrun|]. split; [exact Hl|].
    intros i h Hh. apply Hdone; [|exact Hh].
    apply lookup_lt_Some in Hh. lia.
Qed.

Context {Sample : Type}.
Variable yin : list Sample -> positive -> outcome (list (frame F)).

Lemma length_raw_hz_values_fl (count : nat) (y : list Sample) (sr : positive) :
  length (raw_hz_values yin count y sr) = count.
Proof. unfold raw_hz_values. rewrite length_fmap. apply length_spans. Qed.

Lemma raw_hz_values_robust_fl (count : nat) (y : list Sample) (sr : positive) :
  Forall2 (fun (b : nat * nat) r =>
             robust_pitch_detection yin (slice y (fst b) (snd b)) sr = Returns r)
          (spans count (length y)) (raw_hz_values yin count y sr).
Proof.
  unfold raw_hz_values. apply Forall2_fmap_r, Forall_Forall2_diag, Forall_true.
  intros b. apply robust_pitch_detection_cases_fl.
Qed.

Lemma main_estimate_loop_fl (y : list Sample) (sr : positive) :
  for_range Main.TIME_MARKS ([], []) (Main.estimate_step yin y sr) =
  Returns (raw_hz_values yin Main.TIME_MARKS y sr, spans Main.TIME_MARKS (length y)).
Proof.
  unfold raw_hz_values, spans. rewrite <- list_fmap_compose.
  apply for_range_collect2. intros i la lb. unfold Main.estimate_step.
  destruct (span Main.TIME_MARKS (length y) i) as [a b] eqn:E.
  rewrite robust_pitch_detection_cases_fl. unfold compose. rewrite E. reflexivity.
Qed.

Lemma main2_estimate_loop_fl (y : list Sample) (sr : positive) :
  for_range Main2.TIME_MARKS ([], []) (Main2.estimate_step yin y sr) =
  Returns (raw_hz_values yin Main2.TIME_MARKS y sr, spans Main2.TIME_MARKS (length y)).
Proof.
  unfold raw_hz_values, spans. rewrite <- list_fmap_compose.
  apply for_range_collect2. intros i la lb. unfold Main2.estimate_step.
  destruct (span Main2.TIME_MARKS (length y) i) as [a b] eqn:E.
  rewrite robust_pitch_detection_cases_fl. unfold compose. rewrite E. reflexivity.
Qed.

Lemma prescan_300_marks_returns_fl (y : list Sample) (sr : positive) :
  Main2.prescan_300_marks yin y sr = Returns (prescan_points yin y sr).
Proof.
  unfold Main2.prescan_300_marks, prescan_points, spans.
  rewrite <- list_fmap_compose. apply for_range_collect.
  intros i l. unfold Main2.prescan_step, compose.
  destruct (span Main2.PRE_SCAN_MARKS (length y) i) as [a b].
  rewrite detect_pitch_returns_fl. reflexivity.
Qed.

Lemma main_process_audio_file_returns_fl (name : string) (y : list Sample)
    (sr : positive) :
  exists res,
    Main.process_audio_file yin name y sr = Returns res /\
    length res = Main.TIME_MARKS /\
    forall i h, smooth_hz_values (raw_hz_values yin Main.TIME_MARKS y sr) !! i = Some h ->
      res !! i = Some (main_result name sr i (span Main.TIME_MARKS (length y) i) h).
Proof.
  destruct (main_emit_loop_fl name sr
              (smooth_hz_values (raw_hz_values yin Main.TIME_MARKS y sr)) (length y))
    as (res & Hrun & Hlen & Hdone).
  { rewrite length_smooth_hz_values_fl. apply length_raw_hz_values_fl. }
  exists res. split; [|split; assumption].
  unfold Main.process_audio_file. rewrite main_estimate_loop_fl. unfold bind at 1.
  exact Hrun.
Qed.

Lemma main2_process_audio_file_returns_fl (name : string) (y : list Sample)
    (sr : positive) :
  exists res,
    Main2.process_audio_file yin name y sr = Returns res /\
    length res = Main2.TIME_MARKS /\
    forall i s,
      smooth_hz_values (raw_hz_values yin Main2.TIME_MARKS y sr) !! i = Some s ->
      res !! i =
      Some (mark_result name (prescan_points yin y sr) sr (reset_anchor sr (length y)) i
              (span Main2.TIME_MARKS (length y) i) s).
Proof.
  destruct (mark_loop_fl name (prescan_points yin y sr) sr (length y)
              (smooth_hz_values (raw_hz_values yin Main2.TIME_MARKS y sr)))
    as (final & Hrun & _ & _ & Hlen & Hdone & _).
  { rewrite length_smooth_hz_values_fl. apply length_raw_hz_values_fl. }
  exists (Main2.results final). split; [|split; [exact Hlen|]].
  - unfold Main2.process_audio_file.
    rewrite prescan_300_marks_returns_fl. unfold bind at 1.
    rewrite main2_estimate_loop_fl. unfold bind at 1.
    rewrite Hrun. reflexivity.
  - intros i s Hs. apply Hdone; [|exact Hs].
    apply lookup_lt_Some in Hs.
    rewrite length_smooth_hz_values_fl, length_raw_hz_values_fl in Hs. exact Hs.
Qed.

Lemma main2_record_at_fl (name : string) (y : list Sample) (sr : positive)
    (res : list (MarkResult F)) (i : nat) (r : MarkResult F) :
  Main2.process_audio_file yin name y sr = Returns res ->
  res !! i = Some r ->
  exists s,
    smooth_hz_values (raw_hz_values yin Main2.TIME_MARKS y sr) !! i = Some s /\
    r = mark_result name (prescan_points yin y sr) sr (reset_anchor sr (length y)) i
          (span Main2.TIME_MARKS (length y) i) s.
Proof.
  intros Hres Hr.
  destruct (main2_process_audio_file_returns_fl name y sr) as (res' & Hrun & Hlen & Hdone).
  rewrite Hrun in Hres. injection Hres as <-.
  destruct (lookup_lt_is_Some_2
              (smooth_hz_values (raw_hz_values yin Main2.TIME_MARKS y sr)) i) as [s Hs].
  { rewrite length_smooth_hz_values_fl, length_raw_hz_values_fl, <- Hlen.
    eapply lookup_lt_Some. exact Hr. }
  exists s. split; [exact Hs|]. rewrite (Hdone i s Hs) in Hr. congruence.
Qed.

(** C3.  In [main2.process_audio_file] the pre-scan returns its reference
    points, the coarse estimates are the results of
    [robust_pitch_detection] on the coarse segments, and they are smoothed
    once, as a whole.  The frequency emitted for a mark depends on that
    smoothed sequence only through the mark's own entry [s]: it is
    [round(find_nearest_valid_hz(midpoint_time), 2)], with the midpoint
    [(start / sr + end / sr) / 2] as computed, when [s < MIN_VALID_HZ], and
    [s] itself otherwise.  Hence no replacement reaches the value of another
    mark. *)
Theorem gap_filling_after_smoothing_float (name : string) (y : list Sample)
    (sr : positive) :
  Main2.prescan_300_marks yin y sr = Returns (prescan_points yin y sr) /\
  Forall2 (fun (b : nat * nat) r =>
             robust_pitch_detection yin (slice y (fst b) (snd b)) sr = Returns r)
          (spans Main2.TIME_MARKS (length y))
          (raw_hz_values yin Main2.TIME_MARKS y sr) /\
  exists res,
    Main2.process_audio_file yin name y sr = Returns res /\
    length res = Main2.TIME_MARKS /\
    forall i s,
      smooth_hz_values (raw_hz_values yin Main2.TIME_MARKS y sr) !! i = Some s ->
      exists r,
        res !! i = Some r /\
        (flt s Main2.MIN_VALID_HZ = true ->
           hz r = py_round
                    (Main2.find_nearest_valid_hz
                       (fdiv (fadd (int_div (Z.of_nat (fst (span Main2.TIME_MARKS (length y) i)))
                                            (Zpos sr))
                                   (int_div (Z.of_nat (snd (span Main2.TIME_MARKS (length y) i)))
                                            (Zpos sr)))
                             (of_int 2))
                       (prescan_points yin y sr)) 2) /\
        (flt s Main2.MIN_VALID_HZ = false -> hz r = s).
Proof.
  split; [apply prescan_300_marks_returns_fl|].
  split; [apply raw_hz_values_robust_fl|].
  destruct (main2_process_audio_file_returns_fl name y sr) as (res & Hrun & Hlen & Hdone).
  exists res. split; [exact Hrun|]. split; [exact Hlen|].
  intros i s Hs. eexists. split; [apply Hdone; exact Hs|].
  cbn [hz mark_result]. unfold patched.
  destruct (flt s Main2.MIN_VALID_HZ); split; intros H; try discriminate H; reflexivity.
Qed.

(** C5.  [main2.process_audio_file] returns twenty records.  The record of
    the mark at 0-based index [i < 10] has mark index [i + 1] and relative
    time the midpoint of its segment in seconds; the record of a mark at
    index [i >= 10] has mark index [i - 10 + 1] and relative time the
    midpoint minus the end time of the segment of mark 9, the anchor taken at
    index 10.  Midpoint, end time and difference are the computed ones, and
    the relative time is emitted rounded by [round] to 3 decimals.  The mark
    indices of a file are 1..10 followed by 1..10. *)
Theorem reset_renumbering_float (name : string) (y : list Sample) (sr : positive) :
  exists res,
    Main2.process_audio_file yin name y sr = Returns res /\
    length res = 20%nat /\
    (forall i r, (i < 10)%nat -> res !! i = Some r ->
       time_mark r = (i + 1)%nat /\
       relative_time_sec r =
         py_round (midpoint_time sr (span Main2.TIME_MARKS (length y) i)) 3) /\
    (forall i r, (10 <= i)%nat -> res !! i = Some r ->
       time_mark r = (i - 10 + 1)%nat /\
       relative_time_sec r =
         py_round (fsub (midpoint_time sr (span Main2.TIME_MARKS (length y) i))
                        (end_time sr (span Main2.TIME_MARKS (length y) 9))) 3) /\
    time_mark <$> res = seq 1 10 ++ seq 1 10.
Proof.
  destruct (main2_process_audio_file_returns_fl name y sr) as (res & Hrun & Hlen & _).
  change Main2.TIME_MARKS with 20%nat in Hlen.
  exists res. split; [exact Hrun|]. split; [exact Hlen|]. split; [|split].
  - intros i r Hi Hr. destruct (main2_record_at_fl name y sr res i r Hrun Hr) as (s & _ & ->).
    cbn [time_mark relative_time_sec mark_result].
    destruct (Nat.ltb_spec i 10); [split; reflexivity | lia].
  - intros i r Hi Hr. destruct (main2_record_at_fl name y sr res i r Hrun Hr) as (s & _ & ->).
    cbn [time_mark relative_time_sec mark_result].
    destruct (Nat.ltb_spec i 10); [lia | split; reflexivity].
  - assert (HL : forall i, (i < 20)%nat ->
                (seq 1 10 ++ seq 1 10) !! i =
                Some (if (i <? 10)%nat then (i + 1)%nat else (i - 10 + 1)%nat)).
    { intros i Hi. do 20 (destruct i as [|i]; [reflexivity|]). lia. }
    apply list_eq. intros i. rewrite list_lookup_fmap.
    destruct (res !! i) as [r|] eqn:Hr.
    + pose proof (lookup_lt_Some _ _ _ Hr) as Hi. rewrite Hlen in Hi.
      destruct (main2_record_at_fl name y sr res i r Hrun Hr) as (s & _ & ->).
      rewrite (HL i Hi). reflexivity.
    + apply lookup_ge_None_1 in Hr. rewrite Hlen in Hr.
      symmetry. apply lookup_ge_None_2. rewrite length_app, !length_seq. lia.
Qed.

End Pipelines.

Section PipelineRecords.

Context {F : Type} {AR : Arith F} {Sample : Type}.
Variable yin : list Sample -> positive -> outcome (list (frame F)).

(** X2.  [main.process_audio_file] never raises and returns ten records.
    The record at position [i] carries the name of the file, the mark index
    [i + 1], the midpoint [((start + end) / 2) / sr] of segment [i] as
    computed and rounded by [round] to 3 decimals, and the entry [i] of the
    smoothed sequence of the estimates that [robust_pitch_detection] returns
    on the ten segments. *)
Theorem main_process_audio_file_records_float (name : string) (y : list Sample)
    (sr : positive) :
  exists res raw,
    Main.process_audio_file yin name y sr = Returns res /\
    length res = 10%nat /\
    Forall2 (fun (b : nat * nat) h =>
               robust_pitch_detection yin (slice y (fst b) (snd b)) sr = Returns h)
            (spans 10 (length y)) raw /\
    forall i r, res !! i = Some r ->
      sounding r = name /\
      time_mark r = (i + 1)%nat /\
      relative_time_sec r =
        py_round (fdiv (int_div (Z.of_nat (fst (span 10 (length y) i)
                                           + snd (span 10 (length y) i))) 2)
                       (of_int (Zpos sr))) 3 /\
      smooth_hz_values raw !! i = Some (hz r).
Proof.
  destruct (main_process_audio_file_returns_fl yin name y sr) as (res & Hrun & Hlen & Hdone).
  exists res, (raw_hz_values yin Main.TIME_MARKS y sr).
  split; [exact Hrun|]. split; [exact Hlen|].
  split; [apply raw_hz_values_robust_fl|].
  intros i r Hr.
  destruct (lookup_lt_is_Some_2
              (smooth_hz_values (raw_hz_values yin Main.TIME_MARKS y sr)) i) as [h Hh].
  { rewrite length_smooth_hz_values_fl, length_raw_hz_values_fl, <- Hlen.
    eapply lookup_lt_Some. exact Hr. }
  rewrite (Hdone i h Hh) in Hr. injection Hr as <-.
  repeat split; try reflexivity. exact Hh.
Qed.

(** X11.  In [main2.process_audio_file], when [detect_pitch] never yields a
    value that passes [>= MIN_VALID_HZ], no reference point is valid, and
    every mark whose smoothed frequency is below [MIN_VALID_HZ] is emitted
    with [round(MIN_VALID_HZ, 2)], the floor; the other marks keep their
    smoothed frequency. *)
Theorem main2_floor_without_reference_float (name : string) (y : list Sample)
    (sr : positive) :
  (forall segment h,
     detect_pitch yin segment sr = Returns (Some h) -> fge h Main2.MIN_VALID_HZ = false) ->
  exists res,
    Main2.process_audio_file yin name y sr = Returns res /\
    length res = 20%nat /\
    forall i r s,
      res !! i = Some r ->
      smooth_hz_values (raw_hz_values yin Main2.TIME_MARKS y sr) !! i = Some s ->
      (flt s Main2.MIN_VALID_HZ = true -> hz r = py_round Main2.MIN_VALID_HZ 2) /\
      (flt s Main2.MIN_VALID_HZ = false -> hz r = s).
Proof.
  intros Hlow.
  assert (Hnone : Main2.valid_points (prescan_points yin y sr) = []).
  { destruct (Main2.valid_points (prescan_points yin y sr)) as [|[t h] vs] eqn:E;
      [reflexivity|].
    assert (Hin : (t, h) ∈ Main2.valid_points (prescan_points yin y sr))
      by (rewrite E; left).
    apply valid_points_elem_fl in Hin. destruct Hin as (p & Hp & _ & Hh & Hm).
    unfold prescan_points in Hp. apply list_elem_of_fmap in Hp.
    destruct Hp as (b & -> & _). cbn [Main2.rp_hz] in Hh.
    specialize (Hlow (slice y (fst b) (snd b)) h).
    rewrite detect_pitch_returns_fl, Hh in Hlow. rewrite (Hlow eq_refl) in Hm.
    discriminate. }
  destruct (main2_process_audio_file_returns_fl yin name y sr) as (res & Hrun & Hlen & Hdone).
  exists res. split; [exact Hrun|]. split; [exact Hlen|].
  intros i r s Hr Hs. rewrite (Hdone i s Hs) in Hr. injection Hr as <-.
  cbn [hz mark_result]. unfold patched.
  destruct (flt s Main2.MIN_VALID_HZ); split; intros H; try discriminate H;
    try reflexivity.
  rewrite (find_nearest_valid_hz_floor_fl _ _ Hnone). reflexivity.
Qed.

End PipelineRecords.

End Fl.

(** ** Exact arithmetic as an instance

    Reading every number as a rational and computing exactly gives an
    instance of [Fl.Arith].  It shows that what the theorems above assume of
    the arithmetic can be met, and it agrees with floating point wherever
    floating point is exact, as on binary fractions of moderate size. *)

#[global] Instance exact_arith : Fl.Arith Q := {|
  Fl.of_int := inject_Z;
  Fl.int_div := fun a b => inject_Z a / inject_Z b;
  Fl.fadd := Qplus;
  Fl.fsub := Qminus;
  Fl.fdiv := Qdiv;
  Fl.fabs := Qabs;
  Fl.flt := fun a b => if Qlt_le_dec a b then true else false;
  Fl.fge := fun a b => Qle_bool b a;
  Fl.py_round := py_round;
  Fl.np_mean := np_mean;
  Fl.np_median := np_median
|}.

Definition yin_demo_fl (segment : list unit) (sr : positive)
  : outcome (list (Fl.frame Q)) :=
  match length segment with
  | O => Raises (PrimitiveError "empty segment")
  | S _ =>
      if (length segment <? 10)%nat
      then Returns [Fl.Freq 400; Fl.NaN]
      else Returns [Fl.NaN; Fl.Freq 60]
  end.

Definition yin_low_fl (segment : list unit) (sr : positive)
  : outcome (list (Fl.frame Q)) :=
  Returns [Fl.Freq 60].

Definition points_demo_fl : list (Fl.Main2.ReferencePoint Q) :=
  [ {| Fl.Main2.rp_time := 1; Fl.Main2.rp_hz := Some 100 |};
    {| Fl.Main2.rp_time := 2; Fl.Main2.rp_hz := Some 50 |};
    {| Fl.Main2.rp_time := 3; Fl.Main2.rp_hz := Some 200 |};
    {| Fl.Main2.rp_time := 5; Fl.Main2.rp_hz := None |} ].

Lemma exact_flt_true (a b : Q) : Fl.flt a b = true <-> a < b.
Proof.
  simpl. destruct (Qlt_le_dec a b); split; intros H; try reflexivity;
    try assumption; try discriminate H; lra.
Qed.

Lemma exact_flt_false (a b : Q) : Fl.flt a b = false <-> b <= a.
Proof.
  simpl. destruct (Qlt_le_dec a b); split; intros H; try reflexivity;
    try assumption; try discriminate H; lra.
Qed.

Lemma exact_fge_true (a b : Q) : Fl.fge a b = true <-> b <= a.
Proof. simpl. apply Qle_bool_iff. Qed.

Lemma exact_bounds_respected : Fl.bounds_respected (F := Q).
Proof.
  unfold Fl.bounds_respected. split; [|split; [|split; [|split]]].
  - intros l Hne Hall. apply exact_fge_true.
    change (0 <= np_median l).
    apply (np_median_convex (fun x => 0 <= x)); [| exact Hne |].
    + intros a b Ha Hb. apply Qle_shift_div_l; [reflexivity | lra].
    + eapply Forall_impl; [exact Hall|]. intros x Hx. apply exact_fge_true. exact Hx.
  - intros l Hne Hall. apply exact_fge_true.
    assert (Hlt : np_median l < 350).
    { apply (np_median_convex (fun x => x < 350)); [| exact Hne |].
      - intros a b Ha Hb. apply Qlt_shift_div_r; [reflexivity | lra].
      - eapply Forall_impl; [exact Hall|]. intros x Hx. apply exact_flt_true. exact Hx. }
    change (np_median l <= 350). lra.
  - intros x Hx. apply exact_fge_true. apply exact_flt_true in Hx.
    change (x < 350) in Hx. change (x <= 350). lra.
  - reflexivity.
  - reflexivity.
Qed.

Lemma exact_lt_strict_weak_order (P : Q -> Prop) : Fl.lt_strict_weak_order_on P.
Proof.
  split; [|split].
  - intros a _. apply exact_flt_false. lra.
  - intros a b c _ _ _ Hab Hbc. apply exact_flt_true in Hab, Hbc. apply exact_flt_true. lra.
  - intros a b c _ _ _ Hab Hbc. apply exact_flt_false in Hab, Hbc.
    apply exact_flt_false. lra.
Qed.

Lemma yin_demo_fl_nonneg : Fl.primitive_nonneg yin_demo_fl.
Proof.
  intros segment sr f0. unfold yin_demo_fl.
  destruct (length segment) as [|n]; [discriminate|].
  destruct (S n <? 10)%nat; intros [= <-]; simpl; repeat constructor.
Qed.

Lemma robust_pitch_detection_float_spec_witness :
  Fl.bounds_respected (F := Q) /\
  Fl.primitive_nonneg yin_demo_fl /\
  exists r : Q,
    Fl.robust_pitch_detection yin_demo_fl (replicate 30 tt) 16000 = Returns r /\
    Fl.fge r (Fl.of_int 0) = true /\ Fl.fge Fl.MAX_VALID_HZ r = true /\ r = 60.
Proof.
  split; [exact exact_bounds_respected|]. split; [exact yin_demo_fl_nonneg|].
  destruct (Fl.robust_pitch_detection_float_spec yin_demo_fl exact_bounds_respected
              yin_demo_fl_nonneg (replicate 30 tt) 16000)
    as (r & Hr & H0 & H1 & Hwhole & _).
  exists r. split; [exact Hr|]. split; [exact H0|]. split; [exact H1|].
  apply Hwhole; reflexivity.
Defined.

Lemma find_nearest_valid_hz_float_spec_witness :
  Fl.lt_strict_weak_order_on (fun d : Q => d ∈ Fl.distances 2 points_demo_fl) /\
  Fl.Main2.valid_points points_demo_fl <> [] /\
  Fl.Main2.find_nearest_valid_hz 2 points_demo_fl = 100.
Proof.
  assert (Hne : Fl.Main2.valid_points points_demo_fl <> []) by discriminate.
  split; [apply exact_lt_strict_weak_order|]. split; [exact Hne|].
  destruct (Fl.find_nearest_valid_hz_float_spec 2 points_demo_fl
              (exact_lt_strict_weak_order _))
    as (_ & _ & _ & Hnear).
  destruct (Hnear Hne) as (i & t & h & Hi & -> & Hmin).
  destruct i as [|[|i]].
  - injection Hi as _ <-. reflexivity.
  - injection Hi as <- _.
    destruct (Hmin 0%nat 1 100 eq_refl) as [_ Hstrict].
    exfalso. specialize (Hstrict (le_n 1)). revert Hstrict. vm_compute. discriminate.
  - discriminate Hi.
Defined.

Lemma smooth_hz_values_windows_witness :
  (2 <= length [100; 200; 400; 100])%nat /\
  Fl.smooth_hz_values [100; 200; 400; 100] !! 0%nat
    = Some (Fl.py_round (Fl.np_mean [100; 200]) 2) /\
  Fl.smooth_hz_values [100; 200; 400; 100] !! 3%nat
    = Some (Fl.py_round (Fl.np_mean [400; 100]) 2) /\
  Fl.smooth_hz_values [100; 200; 400; 100] !! 2%nat
    = Some (Fl.py_round (Fl.np_mean [200; 400; 100]) 2).
Proof.
  assert (H : (2 <= length [100; 200; 400; 100])%nat) by (repeat constructor).
  destruct (Fl.smooth_hz_values_windows [100; 200; 400; 100]) as [_ Hs].
  destruct (Hs H) as (Hfirst & Hlast & Hinner).
  split; [exact H|]. split; [|split].
  - apply Hfirst; reflexivity.
  - apply (Hlast 400 100); reflexivity.
  - apply (Hinner 2%nat 200 400 100); [split; repeat constructor | | |]; reflexivity.
Defined.

(** C8 as stated fails.  The constant sequence [120.125, 120.125] is smoothed
    to [120.12, 120.12]: 120.125 is a binary fraction, so the float mean of
    the two copies is 120.125 itself, and 12012.5 is an exact tie, which
    [round] resolves to the even digit. *)
Lemma smooth_hz_values_constant_eighth :
  Fl.smooth_hz_values [961 # 8; 961 # 8] = [12012 # 100; 12012 # 100] /\
  ~ Forall2 Qeq (Fl.smooth_hz_values [961 # 8; 961 # 8]) [961 # 8; 961 # 8].
Proof.
  split; [reflexivity|].
  intros H. inversion H as [|x y l l' Hxy _]; subst.
  revert Hxy. vm_compute. discriminate.
Qed.

(** Exact arithmetic on fractions kept in lowest terms, where equal numbers
    are equal terms. *)
Definition reduced_arith : Fl.Arith Q := {|
  Fl.of_int := inject_Z;
  Fl.int_div := fun a b => Qred (inject_Z a / inject_Z b);
  Fl.fadd := fun a b => Qred (a + b);
  Fl.fsub := fun a b => Qred (a - b);
  Fl.fdiv := fun a b => Qred (a / b);
  Fl.fabs := fun a => Qred (Qabs a);
  Fl.flt := fun a b => if Qlt_le_dec a b then true else false;
  Fl.fge := fun a b => Qle_bool b a;
  Fl.py_round := fun x ndigits => Qred (py_round x ndigits);
  Fl.np_mean := fun l => Qred (np_mean l);
  Fl.np_median := fun l => Qred (np_median l)
|}.

Lemma smooth_hz_values_constant_windows_witness :
  Fl.smooth_hz_values (AR := reduced_arith) (replicate 4 120) = replicate 4 120 /\
  Fl.smooth_hz_values (AR := reduced_arith) (replicate 4 120) !! 0%nat
    = Some (Fl.py_round (Arith := reduced_arith)
              (Fl.np_mean (Arith := reduced_arith) [120; 120]) 2).
Proof.
  destruct (Fl.smooth_hz_values_constant_windows (AR := reduced_arith) 120 4)
    as (Hat & Hsame & _).
  split.
  - apply Hsame; reflexivity.
  - apply (Hat 0%nat). repeat constructor.
Defined.

Lemma gap_filling_after_smoothing_float_witness :
  exists res r,
    Fl.Main2.process_audio_file yin_demo_fl "a.wav"%string wave_demo 16000 = Returns res /\
    Fl.smooth_hz_values (Fl.raw_hz_values yin_demo_fl Fl.Main2.TIME_MARKS wave_demo 16000)
      !! 3%nat = Some (6000 # 100) /\
    res !! 3%nat = Some r /\
    Fl.hz r = 40000 # 100.
Proof.
  destruct (Fl.gap_filling_after_smoothing_float yin_demo_fl "a.wav"%string wave_demo 16000)
    as (_ & _ & res & Hres & _ & Hmarks).
  assert (Hs : Fl.smooth_hz_values
                 (Fl.raw_hz_values yin_demo_fl Fl.Main2.TIME_MARKS wave_demo 16000)
               !! 3%nat = Some (6000 # 100)) by (vm_compute; reflexivity).
  destruct (Hmarks 3%nat (6000 # 100) Hs) as (r & Hr & Hlow & _).
  exists res, r. split; [exact Hres|]. split; [exact Hs|]. split; [exact Hr|].
  rewrite (Hlow eq_refl). vm_compute. reflexivity.
Defined.

Lemma reset_renumbering_float_witness :
  exists res r,
    Fl.Main2.process_audio_file yin_demo_fl "a.wav"%string wave_demo 100 = Returns res /\
    res !! 10%nat = Some r /\
    Fl.time_mark r = 1%nat /\
    Fl.relative_time_sec r = 150 # 1000.
Proof.
  destruct (Fl.reset_renumbering_float yin_demo_fl "a.wav"%string wave_demo 100)
    as (res & Hres & Hlen & _ & Hlate & _).
  destruct (lookup_lt_is_Some_2 res 10) as [r Hr].
  { rewrite Hlen. repeat constructor. }
  destruct (Hlate 10%nat r (le_n 10) Hr) as [Hmark Htime].
  exists res, r. split; [exact Hres|]. split; [exact Hr|]. split; [exact Hmark|].
  rewrite Htime. vm_compute. reflexivity.
Defined.

Lemma main2_floor_without_reference_float_witness :
  (forall segment h,
     Fl.detect_pitch yin_low_fl segment 16000 = Returns (Some h) ->
     Fl.fge h Fl.Main2.MIN_VALID_HZ = false) /\
  exists res r,
    Fl.Main2.process_audio_file yin_low_fl "a.wav"%string wave_demo 16000 = Returns res /\
    res !! 0%nat = Some r /\ Fl.hz r = 7500 # 100.
Proof.
  assert (Hlow : forall segment h,
            Fl.detect_pitch yin_low_fl segment 16000 = Returns (Some h) ->
            Fl.fge h Fl.Main2.MIN_VALID_HZ = false).
  { intros segment h [= <-]. reflexivity. }
  split; [exact Hlow|].
  destruct (Fl.main2_floor_without_reference_float yin_low_fl "a.wav"%string wave_demo
              16000 Hlow) as (res & Hres & Hlen & Hmarks).
  destruct (lookup_lt_is_Some_2 res 0) as [r Hr]; [rewrite Hlen; repeat constructor|].
  assert (Hs : Fl.smooth_hz_values
                 (Fl.raw_hz_values yin_low_fl Fl.Main2.TIME_MARKS wave_demo 16000)
               !! 0%nat = Some (6000 # 100)) by (vm_compute; reflexivity).
  destruct (Hmarks 0%nat r (6000 # 100) Hr Hs) as [Hfloor _].
  exists res, r. split; [exact Hres|]. split; [exact Hr|].
  rewrite (Hfloor eq_refl). reflexivity.
Defined.
